(** * ignis.utils.file_monitor: a shallow embedding of [FileMonitor]

    The Python class [FileMonitor] wraps one [Gio.FileMonitor] for its root
    path and, when recursive, one more per subdirectory.  The embedding keeps
    the module globals ([FLAGS], [EVENT], [file_monitors]) and the methods
    [__init__], [__on_change], [__add_submonitor] and [cancel] under their
    source names.  Effects that leave the object (native monitors opened and
    cancelled, callback calls, signal deliveries) are written to a journal so
    that their order can be stated. *)

From stdpp Require Import base option list gmap strings.
From Stdlib Require Import ZArith Lia Ascii String.

Local Open Scope string_scope.
Local Open Scope list_scope.

(** ** Native vocabulary *)

(** [Gio.FileMonitorFlags], the five members the source names. *)
Inductive FileMonitorFlags :=
| NONE | WATCH_MOUNTS | SEND_MOVED | WATCH_HARD_LINKS | WATCH_MOVES.

(** [Gio.FileMonitorEvent]: the eleven members the source names, and
    [UNLISTED raw] for any other native constant the binding may hand to a
    handler. *)
Inductive FileMonitorEvent :=
| CHANGED | CHANGES_DONE_HINT | MOVED_OUT | DELETED | CREATED
| ATTRIBUTE_CHANGED | PRE_UNMOUNT | UNMOUNTED | MOVED | RENAMED | MOVED_IN
| UNLISTED (raw : Z).

Definition event_code (e : FileMonitorEvent) : Z + Z :=
  match e with
  | CHANGED => inl 0%Z | CHANGES_DONE_HINT => inl 1%Z | MOVED_OUT => inl 2%Z
  | DELETED => inl 3%Z | CREATED => inl 4%Z | ATTRIBUTE_CHANGED => inl 5%Z
  | PRE_UNMOUNT => inl 6%Z | UNMOUNTED => inl 7%Z | MOVED => inl 8%Z
  | RENAMED => inl 9%Z | MOVED_IN => inl 10%Z
  | UNLISTED raw => inr raw
  end.

Definition event_of_code (c : Z + Z) : FileMonitorEvent :=
  match c with
  | inl 0%Z => CHANGED | inl 1%Z => CHANGES_DONE_HINT | inl 2%Z => MOVED_OUT
  | inl 3%Z => DELETED | inl 4%Z => CREATED | inl 5%Z => ATTRIBUTE_CHANGED
  | inl 6%Z => PRE_UNMOUNT | inl 7%Z => UNMOUNTED | inl 8%Z => MOVED
  | inl 9%Z => RENAMED | inl _ => MOVED_IN
  | inr raw => UNLISTED raw
  end.

#[global] Instance FileMonitorEvent_eq_dec : EqDecision FileMonitorEvent.
Proof. solve_decision. Defined.

#[global] Instance FileMonitorEvent_countable : Countable FileMonitorEvent.
Proof.
  apply (inj_countable' event_code event_of_code).
  intros []; reflexivity.
Defined.

#[global] Instance FileMonitorFlags_eq_dec : EqDecision FileMonitorFlags.
Proof. solve_decision. Defined.

(** ** Module globals *)

(** [FLAGS]: the dictionary from the flag literal ([None] or a string) to the
    native flag. *)
Definition FLAGS : gmap (option string) FileMonitorFlags :=
  {[ None := NONE;
     Some "none" := NONE;
     Some "watch_mounts" := WATCH_MOUNTS;
     Some "send_moved" := SEND_MOVED;
     Some "watch_hard_links" := WATCH_HARD_LINKS;
     Some "watch_moves" := WATCH_MOVES ]}.

(** [EVENT]: the dictionary from the native event to the event-type string. *)
Definition EVENT : gmap FileMonitorEvent string :=
  {[ CHANGED := "changed";
     CHANGES_DONE_HINT := "changes_done_hint";
     MOVED_OUT := "moved_out";
     DELETED := "deleted";
     CREATED := "created";
     ATTRIBUTE_CHANGED := "attribute_changed";
     PRE_UNMOUNT := "pre_unmount";
     UNMOUNTED := "unmounted";
     MOVED := "moved";
     RENAMED := "renamed";
     MOVED_IN := "moved_in" ]}.

(** ** Effects

    What a method does to the world outside the object is journalled, oldest
    entry first. *)
Inductive Action :=
| MonitorOpened (path : string) (flags : FileMonitorFlags)
| MonitorCancelled (path : string)
| CallbackCall (path kind : string)
| HandlerCall (handler : nat) (path kind : string).

Inductive Exception :=
| KeyError_FLAGS (key : option string)
| KeyError_EVENT (key : FileMonitorEvent)
| CallbackException (what : string).

(** Python object identity of a [FileMonitor] instance. *)
Definition obj_id := nat.

(** The module-level list [file_monitors] (it holds references, hence
    identities) and the journal. *)
Record Globals := mkGlobals {
  file_monitors : list obj_id;
  journal : list Action
}.

Inductive Completion (A : Type) :=
| Normal (a : A)
| Raise (e : Exception).
Arguments Normal {A} a.
Arguments Raise {A} e.

(** A Python statement: it runs on the globals and either completes with a
    value or raises; the globals it leaves are those at that point. *)
Definition Py (A : Type) : Type := Globals -> Completion A * Globals.

Definition ret {A} (a : A) : Py A := fun g => (Normal a, g).
Definition raise {A} (e : Exception) : Py A := fun g => (Raise e, g).
Definition bind {A B} (c : Py A) (k : A -> Py B) : Py B :=
  fun g => match c g with
           | (Normal a, g') => k a g'
           | (Raise e, g') => (Raise e, g')
           end.
Definition log (a : Action) : Py unit :=
  fun g => (Normal tt, mkGlobals (file_monitors g) (journal g ++ [a])).
Definition file_monitors_append (o : obj_id) : Py unit :=
  fun g => (Normal tt, mkGlobals (file_monitors g ++ [o]) (journal g)).

Notation "'do' x <- c ; k" := (bind c (fun x => k))
  (at level 10, x name, c at level 100, k at level 200).
Notation "'run' c ; k" := (bind c (fun _ => k))
  (at level 10, c at level 100, k at level 200).

(** [for x in xs: body], the loop body threading the object it mutates. *)
Fixpoint for_each {A S} (xs : list A) (body : A -> S -> Py S) (s : S) : Py S :=
  match xs with
  | [] => ret s
  | x :: xs' => do s' <- body x s; for_each xs' body s'
  end.

(** ** Objects *)

(** A native [Gio.FileMonitor]: what it watches, with which flags, and
    whether [cancel()] was called on it. *)
Record GioFileMonitor := mkGio {
  gio_path : string;
  gio_flags : FileMonitorFlags;
  gio_cancelled : bool
}.

Inductive CallbackOutcome := Returns | Throws (what : string).
Definition Callback := string -> string -> CallbackOutcome.

(** The instance attributes of [FileMonitor].  [handlers] are the
    connections to the "changed" signal, in connection order. *)
Record FileMonitor := mkFileMonitor {
  ident : obj_id;
  _monitor : GioFileMonitor;
  _path : string;
  _flags : option string;
  _callback : option Callback;
  _recursive : bool;
  _sub_monitors : list GioFileMonitor;
  _sub_paths : list string;
  handlers : list nat
}.

Definition set_monitor (m : GioFileMonitor) (self : FileMonitor) :=
  mkFileMonitor (ident self) m (_path self) (_flags self) (_callback self)
    (_recursive self) (_sub_monitors self) (_sub_paths self) (handlers self).
Definition set_flags (f : option string) (self : FileMonitor) :=
  mkFileMonitor (ident self) (_monitor self) (_path self) f (_callback self)
    (_recursive self) (_sub_monitors self) (_sub_paths self) (handlers self).
Definition set_callback (c : option Callback) (self : FileMonitor) :=
  mkFileMonitor (ident self) (_monitor self) (_path self) (_flags self) c
    (_recursive self) (_sub_monitors self) (_sub_paths self) (handlers self).
Definition push_submonitor (m : GioFileMonitor) (p : string) (self : FileMonitor) :=
  mkFileMonitor (ident self) (_monitor self) (_path self) (_flags self)
    (_callback self) (_recursive self) (_sub_monitors self ++ [m])
    (_sub_paths self ++ [p]) (handlers self).

(** Modelled from the spec: the subscribe/notify contract of the GObject base
    class ([ignis.gobject] is not among the sources).  [connect] registers a
    listener of "changed"; [emit] delivers to every listener in registration
    order. *)
Definition connect (h : nat) (self : FileMonitor) :=
  mkFileMonitor (ident self) (_monitor self) (_path self) (_flags self)
    (_callback self) (_recursive self) (_sub_monitors self) (_sub_paths self)
    (handlers self ++ [h]).
Definition emit (self : FileMonitor) (path kind : string) : Py unit :=
  for_each (handlers self) (fun h _ => log (HandlerCall h path kind)) tt.

(** [FLAGS[key]] and [EVENT[key]]: a missing key raises [KeyError]. *)
Definition FLAGS_getitem (key : option string) : Py FileMonitorFlags :=
  match FLAGS !! key with
  | Some f => ret f
  | None => raise (KeyError_FLAGS key)
  end.
Definition EVENT_getitem (key : FileMonitorEvent) : Py string :=
  match EVENT !! key with
  | Some k => ret k
  | None => raise (KeyError_EVENT key)
  end.

(** [Gio.File.new_for_path(path).monitor(flags, None)] *)
Definition Gio_File_monitor (path : string) (flags : FileMonitorFlags)
  : Py GioFileMonitor :=
  run log (MonitorOpened path flags);
  ret (mkGio path flags false).

(** [monitor.cancel()] *)
Definition Gio_FileMonitor_cancel (m : GioFileMonitor) : Py GioFileMonitor :=
  run log (MonitorCancelled (gio_path m));
  ret (mkGio (gio_path m) (gio_flags m) true).

Definition call (cb : Callback) (path kind : string) : Py unit :=
  run log (CallbackCall path kind);
  match cb path kind with
  | Returns => ret tt
  | Throws what => raise (CallbackException what)
  end.

(** ** The file system seen by [os.walk] and [os.path] *)

#[local] Unset Elimination Schemes.
Inductive Node :=
| File (name : string)
| Dir (name : string) (children : list Node).
#[local] Set Elimination Schemes.

Definition node_name (n : Node) : string :=
  match n with File s => s | Dir s _ => s end.
Definition is_dir (n : Node) : bool :=
  match n with File _ => false | Dir _ _ => true end.
Definition dirnames (cs : list Node) : list string :=
  node_name <$> filter (fun c => is_dir c = true) cs.
Definition filenames (cs : list Node) : list string :=
  node_name <$> filter (fun c => is_dir c = false) cs.

Definition startswith_sep (s : string) : bool :=
  match s with
  | String c _ => bool_decide (c = "/"%char)
  | EmptyString => false
  end.
Fixpoint endswith_sep (s : string) : bool :=
  match s with
  | EmptyString => false
  | String c EmptyString => bool_decide (c = "/"%char)
  | String _ s' => endswith_sep s'
  end.

(** [os.path.join(a, b)] of posixpath. *)
Definition os_path_join (a b : string) : string :=
  if startswith_sep b then b
  else if bool_decide (a = "") || endswith_sep a then a +:+ b
  else a +:+ "/" +:+ b.

(** [os.walk(top)], top-down and not following links: the triple of [top]
    itself, then the walk of each name in [dirs], in listing order.  A [top]
    that is not a directory yields nothing, so ranging over all children is
    ranging over [dirs]. *)
Fixpoint os_walk (top : string) (t : Node)
  : list (string * list string * list string) :=
  match t with
  | File _ => []
  | Dir _ cs =>
      (top, dirnames cs, filenames cs)
      :: flat_map (fun c => os_walk (os_path_join top (node_name c)) c) cs
  end.

(** ** Methods of [FileMonitor] *)

Definition __add_submonitor (self : FileMonitor) (path : string) : Py FileMonitor :=
  if decide (path ∈ _sub_paths self) then ret self
  else
    do flags <- FLAGS_getitem (_flags self);
    do monitor <- Gio_File_monitor path flags;
    ret (push_submonitor monitor path self).

Definition __on_change (self : FileMonitor) (os_path_isdir : string -> bool)
    (file : string) (event_type : FileMonitorEvent) : Py FileMonitor :=
  let path := file in
  run match _callback self with
      | Some cb =>
          do kind <- EVENT_getitem event_type;
          run call cb path kind;
          do kind' <- EVENT_getitem event_type;
          emit self path kind'
      | None => ret tt
      end;
  if _recursive self && os_path_isdir path
  then __add_submonitor self path
  else ret self.

Definition __init__ (id : obj_id) (path : string) (recursive : bool)
    (flags : option string) (callback : option Callback) (tree : Node)
  : Py FileMonitor :=
  do native <- FLAGS_getitem flags;
  do monitor <- Gio_File_monitor path native;
  let self := mkFileMonitor id monitor path flags callback recursive [] [] [] in
  do self <-
    (if recursive
     then for_each (os_walk path tree)
            (fun '(root, dirs, _files) self =>
               for_each dirs
                 (fun d self => __add_submonitor self (os_path_join root d))
                 self)
            self
     else ret self);
  run file_monitors_append (ident self);
  ret self.

Definition cancel (self : FileMonitor) : Py FileMonitor :=
  do m <- Gio_FileMonitor_cancel (_monitor self);
  ret (set_monitor m self).

(** The [callback] property setter. *)
Definition callback_setter (self : FileMonitor) (value : option Callback)
  : Py FileMonitor :=
  ret (set_callback value self).

(** ** The native side

    Modelled from the spec: the single-path watch primitive ("yields a
    sequence of (path, native-event) pairs until released") on the one event
    loop.  Each pair a watch of the monitor produced is handed to the handler
    the source connects, [__on_change].  Pairs already in the queue of the
    loop when a watch is released still arrive, so delivery does not look at
    the cancelled state; whether such an event is dispatched is up to the
    handler. *)
Inductive Watch := RootWatch | SubWatch (i : nat).

Definition watch_of (self : FileMonitor) (w : Watch) : option GioFileMonitor :=
  match w with
  | RootWatch => Some (_monitor self)
  | SubWatch i => _sub_monitors self !! i
  end.

Definition deliver (self : FileMonitor) (w : Watch)
    (os_path_isdir : string -> bool) (file : string)
    (event_type : FileMonitorEvent) : Py FileMonitor :=
  match watch_of self w with
  | Some _ => __on_change self os_path_isdir file event_type
  | None => ret self
  end.

(** What can happen to a monitor after construction: a native event from one
    of its watches (with the file system as [os.path.isdir] sees it at that
    moment), or a call of its public surface. *)
Inductive Stimulus :=
| Signal (w : Watch) (os_path_isdir : string -> bool) (file : string)
    (event_type : FileMonitorEvent)
| CallCancel
| SetCallback (value : option Callback)
| Connect (handler : nat).

Definition step (self : FileMonitor) (s : Stimulus) : Py FileMonitor :=
  match s with
  | Signal w isdir file ev => deliver self w isdir file ev
  | CallCancel => cancel self
  | SetCallback v => callback_setter self v
  | Connect h => ret (connect h self)
  end.

(** The event loop: stimuli one after the other.  An exception that leaves a
    handler ends that handler only; the methods above mutate the object only
    after their last raising statement, so the object is then as before. *)
Fixpoint main_loop (ss : list Stimulus) (self : FileMonitor) (g : Globals)
  : FileMonitor * Globals :=
  match ss with
  | [] => (self, g)
  | s :: ss' =>
      match step self s g with
      | (Normal self', g') => main_loop ss' self' g'
      | (Raise _, g') => main_loop ss' self g'
      end
  end.

(** ** Reading the journal *)

Definition is_delivery (a : Action) : bool :=
  match a with
  | CallbackCall _ _ | HandlerCall _ _ _ => true
  | _ => false
  end.
Definition is_opening (a : Action) : bool :=
  match a with
  | MonitorOpened _ _ => true
  | _ => false
  end.
Definition deliveries (g : Globals) : list Action :=
  List.filter is_delivery (journal g).
Definition openings (g : Globals) : list Action :=
  List.filter is_opening (journal g).

(** The object a handler leaves behind: its result, or the object it was
    called on when it raised. *)
Definition object_after (self : FileMonitor) (r : Completion FileMonitor)
  : FileMonitor :=
  match r with
  | Normal self' => self'
  | Raise _ => self
  end.

(** All watches of a monitor, root first, and the paths they watch. *)
Definition watches (self : FileMonitor) : list GioFileMonitor :=
  _monitor self :: _sub_monitors self.
Definition watched_paths (self : FileMonitor) : list string :=
  _path self :: _sub_paths self.

(** Number of directories strictly below the root of a tree. *)
Fixpoint count_subdirs (t : Node) : nat :=
  match t with
  | File _ => 0
  | Dir _ cs =>
      list_sum ((fun c => (if is_dir c then 1 else 0) + count_subdirs c) <$> cs)
  end.

(** The paths [__init__] hands to [__add_submonitor], in order: for each
    triple of the walk, [os.path.join(root, d)] for each [d] in [dirs]. *)
Definition walk_paths (path : string) (tree : Node) : list string :=
  flat_map (fun '(root, dirs, _files) => os_path_join root <$> dirs)
    (os_walk path tree).

(** [__add_submonitor] on each path of a list in turn. *)
Definition register_all (paths : list string) (self : FileMonitor)
  : Py FileMonitor :=
  for_each paths (fun p s => __add_submonitor s p) self.

(** ** Directory trees as a file system holds them *)







(** The outcome of a method with the [_flags] literal of the resulting
    object replaced. *)
Definition with_flags (f : option string)
    (r : Completion FileMonitor * Globals) : Completion FileMonitor * Globals :=
  (match r.1 with
   | Normal self => Normal (set_flags f self)
   | Raise e => Raise e
   end, r.2).

(** ** Read accessors

    The [@GObject.Property] getters of [FileMonitor]; only [callback] has a
    setter ([callback_setter] above). *)
Module props.
Definition path (self : FileMonitor) : string := _path self.
Definition flags (self : FileMonitor) : option string := _flags self.
Definition callback (self : FileMonitor) : option Callback := _callback self.
Definition recursive (self : FileMonitor) : bool := _recursive self.
End props.

(** The value the [callback] setter was last called with in a run of
    stimuli, or [current] when it was not called. *)
Fixpoint callback_after (ss : list Stimulus) (current : option Callback)
  : option Callback :=
  match ss with
  | [] => current
  | SetCallback v :: ss' => callback_after ss' v
  | _ :: ss' => callback_after ss' current
  end.

(** The ways one statement of the class changes the object: not at all, by
    [cancel()], by the [callback] setter, by a new subscriber, or by the
    registration of one path that was not listed. *)
Inductive Change (self : FileMonitor) : FileMonitor -> Prop :=
| change_none : Change self self
| change_cancel :
    Change self
      (set_monitor (mkGio (gio_path (_monitor self))
                      (gio_flags (_monitor self)) true) self)
| change_callback v : Change self (set_callback v self)
| change_connect h : Change self (connect h self)
| change_push p native :
    p ∉ _sub_paths self -> _recursive self = true ->
    FLAGS !! _flags self = Some native ->
    Change self (push_submonitor (mkGio p native false) p self).

(** The handler gets past its callback block for this event: there is no
    callback, or the event is listed in [EVENT] and the callback returns. *)
Definition deliverable (self : FileMonitor) (file : string)
    (event_type : FileMonitorEvent) : Prop :=
  match _callback self with
  | None => True
  | Some cb =>
      exists kind, EVENT !! event_type = Some kind /\ cb file kind = Returns
  end.

(** The object as [__init__] has it before the walk. *)
Definition fresh_monitor (id : obj_id) (path : string) (recursive : bool)
    (flags : option string) (native : FileMonitorFlags)
    (callback : option Callback) : FileMonitor :=
  mkFileMonitor id (mkGio path native false) path flags callback recursive
    [] [] [].

(** * ignis.services.bluetooth.service: [BluetoothService]

    The service keeps one [BluetoothDevice] per object path in the dictionary
    [_devices].  The GnomeBluetooth client, its devices and the
    [BluetoothDevice] class are not among the sources: the native device type,
    its [get_object_path()], the [BluetoothDevice] constructor and the
    [connected] property are taken as parameters.  The accessors [powered],
    [setup_mode] and [state] only forward to the client and are left out. *)
Module BluetoothService.
Section Model.
Context {GDevice BluetoothDevice : Type}.
Variable get_object_path : GDevice -> string.
Variable new_device : GDevice -> BluetoothDevice.

(** A Python [dict] with string keys: entries in insertion order, one per
    key.  [d[k] = v] replaces the value of a key in place and appends a new
    key; [k in d]; [d.pop(k)] as the value and the remaining entries. *)
Fixpoint dict_setitem {V} (k : string) (v : V) (d : list (string * V))
  : list (string * V) :=
  match d with
  | [] => [(k, v)]
  | (k', v') :: d' =>
      if decide (k' = k) then (k, v) :: d' else (k', v') :: dict_setitem k v d'
  end.
Fixpoint dict_get {V} (k : string) (d : list (string * V)) : option V :=
  match d with
  | [] => None
  | (k', v') :: d' => if decide (k' = k) then Some v' else dict_get k d'
  end.
Definition dict_contains {V} (k : string) (d : list (string * V)) : bool :=
  bool_decide (k ∈ d.*1).
Fixpoint dict_delete {V} (k : string) (d : list (string * V))
  : list (string * V) :=
  match d with
  | [] => []
  | (k', v') :: d' =>
      if decide (k' = k) then d' else (k', v') :: dict_delete k d'
  end.

(** What the service sends out, oldest first: [self.emit("device-added",
    device)], [self.notify(property)], [device.emit("removed")] and the
    connection it makes to "notify::connected" of a device. *)
Inductive Notification :=
| device_added (device : BluetoothDevice)
| notify (property : string)
| removed (device : BluetoothDevice)
| connect_notify_connected (device : BluetoothDevice).

Record Service := mkService {
  _devices : list (string * BluetoothDevice);
  outbox : list Notification
}.

Definition send (n : Notification) (self : Service) : Service :=
  mkService (_devices self) (outbox self ++ [n]).

Definition __add_device (self : Service) (gdevice : GDevice) : Service :=
  let device := new_device gdevice in
  let self :=
    mkService (dict_setitem (get_object_path gdevice) device (_devices self))
      (outbox self) in
  let self := send (device_added device) self in
  let self := send (connect_notify_connected device) self in
  send (notify "devices") self.

Definition __remove_device (self : Service) (object_path : string) : Service :=
  if negb (dict_contains object_path (_devices self)) then self
  else
    match dict_get object_path (_devices self) with
    | Some device =>
        let self :=
          mkService (dict_delete object_path (_devices self)) (outbox self) in
        let self := send (removed device) self in
        let self := send (notify "connected-devices") self in
        send (notify "devices") self
    | None => self
    end.

(** [__init__], given what [self._client.get_devices()] returns. *)
Definition __init__ (get_devices : list GDevice) : Service :=
  foldl __add_device (mkService [] []) get_devices.

Definition devices (self : Service) : list BluetoothDevice :=
  (_devices self).*2.

(** [connected_devices], given the [connected] property of the devices at
    the time of the call. *)
Definition connected_devices (connected : BluetoothDevice -> bool)
    (self : Service) : list BluetoothDevice :=
  List.filter connected (devices self).

(** The client signals the service is connected to. *)
Inductive ClientSignal :=
| on_device_added (gdevice : GDevice)
| on_device_removed (object_path : string).

Definition handle (self : Service) (s : ClientSignal) : Service :=
  match s with
  | on_device_added gdevice => __add_device self gdevice
  | on_device_removed object_path => __remove_device self object_path
  end.

End Model.
End BluetoothService.

(** ** Sample worlds used by the examples *)

Definition g0 : Globals := mkGlobals [] [].
Definition cb_ok : Callback := fun _ _ => Returns.
Definition cb_boom : Callback := fun _ _ => Throws "boom".
Definition always_dir : string -> bool := fun _ => true.
Definition never_dir : string -> bool := fun _ => false.
Definition tree_D_a : Node := Dir "D" [Dir "a" []].

(** A monitor of [D] with one subscriber and no subdirectory watch, and one
    that already watches [D/a]. *)
Definition mon (callback : option Callback) (recursive : bool) : FileMonitor :=
  mkFileMonitor 0 (mkGio "D" NONE false) "D" None callback recursive [] [] [7].
Definition mon_a : FileMonitor :=
  mkFileMonitor 0 (mkGio "D" NONE false) "D" None (Some cb_ok) true
    [mkGio "D/a" NONE false] ["D/a"] [7].
Definition tree1 : Node :=
  Dir "D" [Dir "a" [File "f"; Dir "b" []]; File "x"; Dir "c" []].

(** A service holding the device [dev_A]; native devices are given as
    pairs of object path and address, wrapped as they are. *)
Definition bt_service : BluetoothService.Service (BluetoothDevice:=string * string) :=
  BluetoothService.mkService [("/org/bluez/hci0/dev_A", ("/org/bluez/hci0/dev_A", "AA"))] [].
Definition bt_dev_A2 : string * string := ("/org/bluez/hci0/dev_A", "A2").
Definition bt_dev_B : string * string := ("/org/bluez/hci0/dev_B", "BB").

(** ** Basic facts about the statements *)

Lemma emit_spec self path kind g :
  emit self path kind g =
  (Normal tt,
   mkGlobals (file_monitors g)
     (journal g ++ ((fun h => HandlerCall h path kind) <$> handlers self))).
Proof.
  unfold emit. generalize (handlers self) as hs. intros hs. revert g.
  induction hs as [|h hs IH]; intros [fm j]; simpl.
  - unfold ret. simpl. by rewrite app_nil_r.
  - unfold bind, log. simpl. rewrite IH. simpl. by rewrite <- app_assoc.
Qed.

Lemma add_submonitor_present self path g :
  path ∈ _sub_paths self -> __add_submonitor self path g = (Normal self, g).
Proof.
  intros Hin. unfold __add_submonitor. by rewrite decide_True.
Qed.

Lemma add_submonitor_absent self path flags g :
  path ∉ _sub_paths self -> FLAGS !! _flags self = Some flags ->
  __add_submonitor self path g =
  (Normal (push_submonitor (mkGio path flags false) path self),
   mkGlobals (file_monitors g) (journal g ++ [MonitorOpened path flags])).
Proof.
  intros Hout Hf. unfold __add_submonitor. rewrite decide_False by done.
  unfold bind, FLAGS_getitem. rewrite Hf. reflexivity.
Qed.

Lemma cancel_spec self g :
  cancel self g =
  (Normal (set_monitor (mkGio (gio_path (_monitor self))
                          (gio_flags (_monitor self)) true) self),
   mkGlobals (file_monitors g)
     (journal g ++ [MonitorCancelled (gio_path (_monitor self))])).
Proof. reflexivity. Qed.

Lemma filter_handler_calls (p : Action -> bool) path kind (hs : list nat) :
  (forall h, p (HandlerCall h path kind) = false) ->
  List.filter p ((fun h => HandlerCall h path kind) <$> hs) = [].
Proof.
  intros Hp. induction hs as [|h hs IH]; simpl; [done|]. by rewrite Hp.
Qed.

Lemma on_change_no_callback self isdir file ev g :
  _callback self = None ->
  __on_change self isdir file ev g =
  (if _recursive self && isdir file
   then __add_submonitor self file else ret self) g.
Proof. intros Hcb. unfold __on_change, bind. rewrite Hcb. reflexivity. Qed.

Lemma on_change_unlisted self cb isdir file ev g :
  _callback self = Some cb -> EVENT !! ev = None ->
  __on_change self isdir file ev g = (Raise (KeyError_EVENT ev), g).
Proof.
  intros Hcb Hev. unfold __on_change, bind, EVENT_getitem.
  rewrite Hcb, Hev. reflexivity.
Qed.

Lemma on_change_throws self cb isdir file ev kind what g :
  _callback self = Some cb -> EVENT !! ev = Some kind ->
  cb file kind = Throws what ->
  __on_change self isdir file ev g =
  (Raise (CallbackException what),
   mkGlobals (file_monitors g) (journal g ++ [CallbackCall file kind])).
Proof.
  intros Hcb Hev Hout. unfold __on_change, bind, EVENT_getitem, call, bind, log.
  rewrite Hcb, Hev. simpl. rewrite Hout. reflexivity.
Qed.

Lemma on_change_returns self cb isdir file ev kind g :
  _callback self = Some cb -> EVENT !! ev = Some kind ->
  cb file kind = Returns ->
  __on_change self isdir file ev g =
  (if _recursive self && isdir file
   then __add_submonitor self file else ret self)
    (mkGlobals (file_monitors g)
       (journal g ++ CallbackCall file kind
          :: ((fun h => HandlerCall h file kind) <$> handlers self))).
Proof.
  intros Hcb Hev Hout. unfold __on_change, bind, EVENT_getitem, call, bind, log.
  rewrite Hcb, Hev. simpl. rewrite Hout. simpl. rewrite emit_spec. simpl.
  by rewrite <- app_assoc.
Qed.

(** The four ways through [__on_change]: no callback; callback and an
    unlisted event; callback that raises; callback that returns. *)
Ltac on_change_cases self file ev Hcb Hev Hout :=
  let cb := fresh "cb" in
  let kind := fresh "kind" in
  let what := fresh "what" in
  destruct (_callback self) as [cb|] eqn:Hcb;
  [ destruct (EVENT !! ev) as [kind|] eqn:Hev;
    [ destruct (cb file kind) as [|what] eqn:Hout;
      [ rewrite !(on_change_returns _ cb _ file ev kind) by done
      | rewrite !(on_change_throws _ cb _ file ev kind what) by done ]
    | rewrite !(on_change_unlisted _ cb) by done ]
  | rewrite !on_change_no_callback by done ].

Lemma add_submonitor_deliveries self path g :
  deliveries (__add_submonitor self path g).2 = deliveries g.
Proof.
  unfold __add_submonitor. case_decide; [done|].
  unfold bind, FLAGS_getitem. destruct (FLAGS !! _flags self); [|done].
  unfold deliveries. simpl. by rewrite List.filter_app, app_nil_r.
Qed.

Lemma registration_deliveries self (b : bool) path g :
  deliveries ((if b then __add_submonitor self path else ret self) g).2
  = deliveries g.
Proof. destruct b; [apply add_submonitor_deliveries|done]. Qed.

Lemma registration_present self (b : bool) path g :
  path ∈ _sub_paths self ->
  (if b then __add_submonitor self path else ret self) g = (Normal self, g).
Proof. intros Hin. destruct b; [by apply add_submonitor_present|done]. Qed.

(** ** Cancellation *)

(** C1, as the code has it: [cancel()] completes normally and releases the
    root watch; the list of subdirectory paths and the module-level list
    [file_monitors] are left exactly as they were. *)
Theorem cancel_releases_root_only self g :
  exists self' g',
    cancel self g = (Normal self', g') /\
    gio_cancelled (_monitor self') = true /\
    _sub_paths self' = _sub_paths self /\
    file_monitors g' = file_monitors g.
Proof. rewrite cancel_spec. eexists _, _. split; [reflexivity|]. done. Qed.

(** C1 refuted as stated: a recursive monitor over a directory [D] holding
    one subdirectory [a] is cancelled; afterwards the path list still holds
    [D/a] and [file_monitors] still holds the monitor. *)
Lemma cancel_keeps_mapping_and_registry :
  exists m g m' g',
    __init__ 0 "D" true None None tree_D_a g0 = (Normal m, g) /\
    cancel m g = (Normal m', g') /\
    _sub_paths m' = ["D/a"] /\
    _sub_paths m' <> [] /\
    ident m ∈ file_monitors g'.
Proof.
  eexists _, _, _, _. split; [vm_compute; reflexivity|].
  split; [reflexivity|]. simpl. split; [reflexivity|].
  split; [discriminate|]. apply list_elem_of_here.
Qed.

(** C2 on the code: the same monitor with a callback and one subscriber is
    cancelled; an event from the watch of [D/a] arriving afterwards still
    reaches the callback and the subscriber. *)
Theorem subwatch_event_after_cancel_dispatched :
  exists m g m' g',
    __init__ 0 "D" true None (Some cb_ok) tree_D_a g0 = (Normal m, g) /\
    cancel (connect 7 m) g = (Normal m', g') /\
    deliveries g' = [] /\
    deliveries (deliver m' (SubWatch 0) never_dir "D/a/f" CREATED g').2
    = [CallbackCall "D/a/f" "created"; HandlerCall 7 "D/a/f" "created"].
Proof.
  eexists _, _, _, _. split; [vm_compute; reflexivity|].
  split; [reflexivity|]. split; vm_compute; reflexivity.
Qed.

(** ** Unlisted native events *)




(** ** A callback that raises *)

(** C4, as the code has it: an exception raised by the callback leaves
    [__on_change] uncaught, right after the callback call; that event is not
    delivered to the subscribers and no subdirectory is registered for it.
    The monitor object is not touched. *)
Theorem callback_exception_propagates self cb isdir file ev kind what g :
  _callback self = Some cb -> EVENT !! ev = Some kind ->
  cb file kind = Throws what ->
  __on_change self isdir file ev g =
    (Raise (CallbackException what),
     mkGlobals (file_monitors g) (journal g ++ [CallbackCall file kind])) /\
  object_after self (__on_change self isdir file ev g).1 = self.
Proof.
  intros Hcb Hev Hout.
  rewrite (on_change_throws self cb isdir file ev kind what) by done. done.
Qed.

Lemma callback_exception_propagates_witness :
  _callback (mon (Some cb_boom) true) = Some cb_boom /\
  EVENT !! CREATED = Some "created" /\
  cb_boom "D/a" "created" = Throws "boom" /\
  __on_change (mon (Some cb_boom) true) always_dir "D/a" CREATED g0
  = (Raise (CallbackException "boom"),
     mkGlobals [] [CallbackCall "D/a" "created"]).
Proof.
  split; [reflexivity|]. split; [vm_compute; reflexivity|].
  split; [reflexivity|].
  apply (callback_exception_propagates (mon (Some cb_boom) true) cb_boom
           always_dir "D/a" CREATED "created" "boom" g0);
    solve [reflexivity | vm_compute; reflexivity].
Defined.

(** C4 refuted as stated: the exception of the callback is the completion of
    the handler, and the journal ends at the callback call. *)
Lemma callback_exception_not_caught :
  (__on_change (mon (Some cb_boom) true) always_dir "D/a" CREATED g0).1
  = Raise (CallbackException "boom") /\
  journal (__on_change (mon (Some cb_boom) true) always_dir "D/a" CREATED g0).2
  = [CallbackCall "D/a" "created"].
Proof. split; vm_compute; reflexivity. Qed.

(** ** Registration of subdirectories *)

Lemma openings_after_deliveries g file kind (hs : list nat) :
  openings
    (mkGlobals (file_monitors g)
       (journal g ++ CallbackCall file kind
          :: ((fun h => HandlerCall h file kind) <$> hs)))
  = openings g.
Proof.
  unfold openings. simpl. rewrite List.filter_app. simpl.
  rewrite filter_handler_calls by done. by rewrite app_nil_r.
Qed.

(** The handler keeps the path list free of repetitions. *)
Lemma add_submonitor_NoDup self path g :
  NoDup (_sub_paths self) ->
  NoDup (_sub_paths (object_after self (__add_submonitor self path g).1)).
Proof.
  intros Hnd. unfold __add_submonitor. case_decide as Hin; [done|].
  unfold bind, FLAGS_getitem. destruct (FLAGS !! _flags self); [|done].
  simpl. apply NoDup_app. split; [done|]. split.
  - intros x Hx ->%list_elem_of_singleton. done.
  - apply NoDup_singleton.
Qed.

Lemma on_change_registered_object self isdir path ev g :
  path ∈ _sub_paths self ->
  object_after self (__on_change self isdir path ev g).1 = self.
Proof.
  intros Hin. on_change_cases self path ev Hcb Hev Hout; try done.
  all: by rewrite registration_present.
Qed.

Lemma on_change_registered_openings self isdir path ev g :
  path ∈ _sub_paths self ->
  openings (__on_change self isdir path ev g).2 = openings g.
Proof.
  intros Hin. on_change_cases self path ev Hcb Hev Hout; try done.
  - rewrite registration_present by done. apply openings_after_deliveries.
  - unfold openings. simpl. by rewrite List.filter_app, app_nil_r.
  - by rewrite registration_present.
Qed.

(** Once the registration step returned for a path, the path is listed. *)
Lemma add_submonitor_registers self path g self' g' :
  __add_submonitor self path g = (Normal self', g') ->
  path ∈ _sub_paths self'.
Proof.
  unfold __add_submonitor. case_decide as Hin; [by intros [= <- _]|].
  unfold bind, FLAGS_getitem. destruct (FLAGS !! _flags self); [|done].
  intros [= <- _]. simpl. apply elem_of_app. right. apply list_elem_of_here.
Qed.

(** The same [CREATED] event for a directory, handled a second time by a
    recursive monitor, changes nothing and opens nothing. *)
Lemma created_event_repeated self isdir path g self1 g1 isdir2 g2 :
  _recursive self = true -> isdir path = true ->
  __on_change self isdir path CREATED g = (Normal self1, g1) ->
  object_after self1 (__on_change self1 isdir2 path CREATED g2).1 = self1 /\
  openings (__on_change self1 isdir2 path CREATED g2).2 = openings g2.
Proof.
  intros Hrec Hdir Hfirst.
  assert (path ∈ _sub_paths self1) as Hin.
  { revert Hfirst. on_change_cases self path CREATED Hcb Hev Hout; try done.
    all: rewrite Hrec, Hdir; apply add_submonitor_registers. }
  split; [by apply on_change_registered_object
         |by apply on_change_registered_openings].
Qed.




(** ** Order of delivery *)

(** C7 on the code: a monitor built without callback, with one subscriber
    connected; a [CHANGED] event from its live root watch is handled without
    any delivery to the subscriber. *)
Theorem no_callback_no_signal :
  exists m g,
    __init__ 0 "D" false None None (Dir "D" []) g0 = (Normal m, g) /\
    handlers (connect 7 m) = [7] /\
    deliver (connect 7 m) RootWatch never_dir "D/f" CHANGED g
    = (Normal (connect 7 m), g).
Proof.
  eexists _, _. split; [vm_compute; reflexivity|].
  split; vm_compute; reflexivity.
Qed.

(** X22: with a callback set that returns normally, an event of a listed
    type reaches the callback first, with the path of the event and the
    string [EVENT] gives for its type, and then each subscriber once, with
    the same two values, in connection order. *)
Lemma callback_before_subscribers self cb isdir file ev kind g :
  _callback self = Some cb -> EVENT !! ev = Some kind ->
  cb file kind = Returns ->
  deliveries (__on_change self isdir file ev g).2 =
  deliveries g ++ CallbackCall file kind
    :: ((fun h => HandlerCall h file kind) <$> handlers self).
Proof.
  intros Hcb Hev Hout.
  rewrite (on_change_returns self cb isdir file ev kind) by done.
  rewrite registration_deliveries. unfold deliveries. simpl.
  rewrite List.filter_app. simpl. f_equal. f_equal.
  generalize (handlers self) as hs.
  induction hs as [|h hs IH]; simpl; [done|]. f_equal. exact IH.
Qed.




(** ** Flags *)

Lemma FLAGS_unknown (flags : option string) :
  flags ∉ [None; Some "none"; Some "watch_mounts"; Some "send_moved";
           Some "watch_hard_links"; Some "watch_moves"] ->
  FLAGS !! flags = None.
Proof.
  intros Hout. unfold FLAGS.
  repeat (rewrite lookup_insert_ne;
          [|intros Heq; subst flags; apply Hout; repeat constructor]).
  apply lookup_singleton_ne.
  intros Heq; subst flags; apply Hout; repeat constructor.
Qed.

(** C9: a flag literal outside the keys of [FLAGS] makes the constructor
    raise at its first lookup; no native monitor was opened and nothing was
    added to [file_monitors]. *)
Theorem unknown_flag_aborts_construction id path recursive flags callback tree g :
  flags ∉ [None; Some "none"; Some "watch_mounts"; Some "send_moved";
           Some "watch_hard_links"; Some "watch_moves"] ->
  __init__ id path recursive flags callback tree g
  = (Raise (KeyError_FLAGS flags), g).
Proof.
  intros Hout. unfold __init__, bind, FLAGS_getitem.
  by rewrite FLAGS_unknown.
Qed.

Lemma unknown_flag_aborts_construction_witness :
  (Some "watch_everything"
     ∉ [None; Some "none"; Some "watch_mounts"; Some "send_moved";
        Some "watch_hard_links"; Some "watch_moves"]) /\
  __init__ 0 "D" true (Some "watch_everything") None tree1 g0
  = (Raise (KeyError_FLAGS (Some "watch_everything")), g0).
Proof.
  assert (Some "watch_everything"
            ∉ [None; Some "none"; Some "watch_mounts"; Some "send_moved";
               Some "watch_hard_links"; Some "watch_moves"]) as Hout.
  { intros Hin. apply list_elem_of_In in Hin. simpl in Hin.
    repeat (destruct Hin as [Hin|Hin]; [discriminate Hin|]). exact Hin. }
  split; [exact Hout|].
  apply (unknown_flag_aborts_construction 0 "D" true (Some "watch_everything")
           None tree1 g0 Hout).
Defined.

(** ** Loops of [__init__] *)

Lemma for_each_app {A S} (l1 l2 : list A) (body : A -> S -> Py S) s g :
  for_each (l1 ++ l2) body s g =
  (do s' <- for_each l1 body s; for_each l2 body s') g.
Proof.
  revert s g. induction l1 as [|x l1 IH]; intros s g; simpl; [done|].
  unfold bind. destruct (body x s g) as [[s'|e] g']; [|done].
  rewrite IH. reflexivity.
Qed.

Lemma for_each_fmap {A B S} (f : A -> B) (l : list A) (body : B -> S -> Py S) s g :
  for_each (f <$> l) body s g = for_each l (fun x => body (f x)) s g.
Proof.
  revert s g. induction l as [|x l IH]; intros s g; simpl; [done|].
  unfold bind. destruct (body (f x) s g) as [[s'|e] g']; [apply IH|done].
Qed.

Lemma for_each_flat_map {A B S} (f : A -> list B) (l : list A)
    (body : B -> S -> Py S) s g :
  for_each l (fun x s => for_each (f x) body s) s g =
  for_each (flat_map f l) body s g.
Proof.
  revert s g. induction l as [|x l IH]; intros s g; simpl; [done|].
  rewrite for_each_app. unfold bind.
  destruct (for_each (f x) body s g) as [[s'|e] g']; [apply IH|done].
Qed.

Lemma init_loop_register_all path tree self g :
  for_each (os_walk path tree)
    (fun '(root, dirs, _files) self =>
       for_each dirs
         (fun d self => __add_submonitor self (os_path_join root d)) self)
    self g
  = register_all (walk_paths path tree) self g.
Proof.
  unfold register_all, walk_paths. rewrite <- for_each_flat_map.
  generalize (os_walk path tree) as ts. intros ts. revert self g.
  induction ts as [|[[root dirs] files] ts IH]; intros self g; simpl; [done|].
  unfold bind. rewrite for_each_fmap.
  destruct (for_each dirs _ self g) as [[s'|e] g']; [apply IH|done].
Qed.

(** ** The flag literal is read only through [FLAGS] *)

Section SameNativeFlags.
Variables (f : option string) (native : FileMonitorFlags).
Hypothesis Hf : FLAGS !! f = Some native.

Lemma add_submonitor_with_flags self path g :
  FLAGS !! _flags self = Some native ->
  __add_submonitor (set_flags f self) path g
  = with_flags f (__add_submonitor self path g).
Proof.
  intros Hs. unfold __add_submonitor. simpl.
  case_decide; [done|]. unfold bind, FLAGS_getitem. by rewrite Hf, Hs.
Qed.

Lemma add_submonitor_keeps_flags self path g self' g' :
  __add_submonitor self path g = (Normal self', g') ->
  _flags self' = _flags self.
Proof.
  unfold __add_submonitor. case_decide; [by intros [= <- _]|].
  unfold bind, FLAGS_getitem. destruct (FLAGS !! _flags self); [|done].
  by intros [= <- _].
Qed.

Lemma register_all_with_flags paths self g :
  FLAGS !! _flags self = Some native ->
  register_all paths (set_flags f self) g
  = with_flags f (register_all paths self g).
Proof.
  unfold register_all. revert self g.
  induction paths as [|p ps IH]; intros self g Hs; simpl; [done|].
  unfold bind. rewrite add_submonitor_with_flags by done.
  destruct (__add_submonitor self p g) as [[s'|e] g'] eqn:Hadd; simpl; [|done].
  apply IH. by rewrite (add_submonitor_keeps_flags _ _ _ _ _ Hadd).
Qed.

Lemma on_change_with_flags self isdir file ev g :
  FLAGS !! _flags self = Some native ->
  __on_change (set_flags f self) isdir file ev g
  = with_flags f (__on_change self isdir file ev g).
Proof.
  intros Hs. on_change_cases self file ev Hcb Hev Hout; simpl; try done.
  all: destruct (_recursive self && isdir file); [|done].
  all: by apply add_submonitor_with_flags.
Qed.

Lemma on_change_keeps_flags self isdir file ev g self' g' :
  __on_change self isdir file ev g = (Normal self', g') ->
  _flags self' = _flags self.
Proof.
  on_change_cases self file ev Hcb Hev Hout; try done.
  all: destruct (_recursive self && isdir file);
    [apply add_submonitor_keeps_flags|by intros [= <- _]].
Qed.

Lemma step_with_flags self s g :
  FLAGS !! _flags self = Some native ->
  step (set_flags f self) s g = with_flags f (step self s g).
Proof.
  intros Hs. destruct s as [w isdir file ev| |v|h]; simpl; try done.
  unfold deliver.
  replace (watch_of (set_flags f self) w) with (watch_of self w)
    by (by destruct w).
  destruct (watch_of self w) as [m|]; [|done].
  by apply on_change_with_flags.
Qed.

Lemma step_keeps_flags self s g self' g' :
  step self s g = (Normal self', g') -> _flags self' = _flags self.
Proof.
  destruct s as [w isdir file ev| |v|h]; simpl.
  - unfold deliver. destruct (watch_of self w) as [m|].
    + apply on_change_keeps_flags.
    + by intros [= <- _].
  - rewrite cancel_spec. by intros [= <- _].
  - by intros [= <- _].
  - by intros [= <- _].
Qed.

Lemma main_loop_with_flags ss self g :
  FLAGS !! _flags self = Some native ->
  main_loop ss (set_flags f self) g
  = (set_flags f (main_loop ss self g).1, (main_loop ss self g).2).
Proof.
  revert self g. induction ss as [|s ss IH]; intros self g Hs; simpl; [done|].
  rewrite step_with_flags by done.
  destruct (step self s g) as [[self'|e] g'] eqn:Hstep; simpl.
  - apply IH. by rewrite (step_keeps_flags _ _ _ _ _ Hstep).
  - by apply IH.
Qed.
End SameNativeFlags.

Lemma register_all_total paths self native g :
  FLAGS !! _flags self = Some native ->
  exists self' g', register_all paths self g = (Normal self', g').
Proof.
  unfold register_all. revert self g.
  induction paths as [|p ps IH]; intros self g Hs; simpl; [by eexists _, _|].
  unfold bind.
  destruct (decide (p ∈ _sub_paths self)) as [Hin|Hout].
  - rewrite add_submonitor_present by done. by apply IH.
  - rewrite (add_submonitor_absent self p native) by done. by apply IH.
Qed.

Lemma register_all_keeps_flags paths self g self' g' :
  register_all paths self g = (Normal self', g') -> _flags self' = _flags self.
Proof.
  unfold register_all. revert self g.
  induction paths as [|p ps IH]; intros self g; simpl; [by intros [= <- _]|].
  unfold bind.
  destruct (__add_submonitor self p g) as [[s1|e] g1] eqn:Hadd; [|done].
  intros Hrest. rewrite (IH _ _ Hrest).
  by apply add_submonitor_keeps_flags in Hadd.
Qed.

Lemma init_keeps_flags id path recursive flags callback tree g self g' :
  __init__ id path recursive flags callback tree g = (Normal self, g') ->
  _flags self = flags.
Proof.
  unfold __init__, bind, FLAGS_getitem.
  destruct (FLAGS !! flags) as [native|]; [simpl|done].
  destruct recursive; [|by intros [= <- _]].
  rewrite init_loop_register_all.
  destruct (register_all _ _ _) as [[s1|e] g1] eqn:Hreg; [|done].
  intros [= <- _]. by apply register_all_keeps_flags in Hreg.
Qed.

Lemma init_with_flags f id path recursive callback tree native g :
  FLAGS !! f = Some native -> FLAGS !! None = Some native ->
  __init__ id path recursive f callback tree g
  = with_flags f (__init__ id path recursive None callback tree g).
Proof.
  intros Hf Hn. unfold __init__, bind, FLAGS_getitem. rewrite Hf, Hn. simpl.
  destruct recursive; [|done].
  rewrite !init_loop_register_all.
  change (mkFileMonitor id (mkGio path native false) path f callback true [] [] [])
    with (set_flags f (mkFileMonitor id (mkGio path native false) path None
                         callback true [] [] [])).
  rewrite (register_all_with_flags f native) by done.
  destruct (register_all _ _ _) as [[s'|e] g']; done.
Qed.

Lemma init_total id path recursive flags callback tree native g :
  FLAGS !! flags = Some native ->
  exists self g', __init__ id path recursive flags callback tree g
                  = (Normal self, g').
Proof.
  intros Hf. unfold __init__, bind, FLAGS_getitem. rewrite Hf. simpl.
  destruct recursive; [|by eexists _, _].
  rewrite init_loop_register_all.
  destruct (register_all_total (walk_paths path tree)
              (mkFileMonitor id (mkGio path native false) path flags callback
                 true [] [] []) native
              (mkGlobals (file_monitors g)
                 (journal g ++ [MonitorOpened path native])) Hf)
    as (s' & g' & ->).
  by eexists _, _.
Qed.

(** C10: [None] and ["none"] are mapped to the same native flag; the
    constructor succeeds with either, the two objects differ in the stored
    literal only and the globals not at all; and whatever stimuli follow
    (native events from any watch, [cancel()], callback changes, new
    subscribers), the two end in the same globals, journal included, and in
    objects that still differ in the stored literal only. *)
Theorem flags_None_same_as_none id path recursive callback tree g ss :
  FLAGS !! None = FLAGS !! Some "none" /\
  exists m g1,
    __init__ id path recursive None callback tree g = (Normal m, g1) /\
    __init__ id path recursive (Some "none") callback tree g
      = (Normal (set_flags (Some "none") m), g1) /\
    main_loop ss (set_flags (Some "none") m) g1
      = (set_flags (Some "none") (main_loop ss m g1).1, (main_loop ss m g1).2).
Proof.
  split; [reflexivity|].
  destruct (init_total id path recursive None callback tree NONE g eq_refl)
    as (m & g1 & Hinit).
  exists m, g1. split; [done|]. split.
  - rewrite (init_with_flags (Some "none") _ _ _ _ _ NONE) by reflexivity.
    by rewrite Hinit.
  - apply (main_loop_with_flags (Some "none") NONE); [reflexivity|].
    by rewrite (init_keeps_flags _ _ _ _ _ _ _ _ _ Hinit).
Qed.

(** ** Paths built by [os.path.join] *)



















(** ** The walk of a tree *)


Lemma elem_of_flat_map {A B} (f : A -> list B) (l : list A) (y : B) :
  y ∈ flat_map f l <-> exists x, x ∈ l /\ y ∈ f x.
Proof.
  rewrite list_elem_of_In, in_flat_map. split.
  - intros (x & Hx & Hy). exists x. by rewrite !list_elem_of_In.
  - intros (x & Hx & Hy). exists x. by rewrite <- !list_elem_of_In.
Qed.











(** ** Registering a list of fresh paths *)



(** ** Construction of a recursive monitor *)





Example tree1_watches :
  exists self g',
    __init__ 0 "D" true None None tree1 g0 = (Normal self, g') /\
    watched_paths self = ["D"; "D/a"; "D/c"; "D/a/b"] /\
    count_subdirs tree1 = 3.
Proof. eexists _, _. split; [vm_compute; reflexivity|]. done. Qed.

(** ** How the object evolves

    Every statement of the class changes the object in one of the ways of
    [Change]; what a property of the object needs in order to hold forever
    is to survive these. *)

Lemma Change_fields a b :
  Change a b ->
  ident b = ident a /\ _path b = _path a /\ _flags b = _flags a /\
  _recursive b = _recursive a.
Proof. by intros []. Qed.

Lemma add_submonitor_change self path g :
  _recursive self = true ->
  Change self (object_after self (__add_submonitor self path g).1).
Proof.
  intros Hrec. unfold __add_submonitor. case_decide as Hin; [constructor|].
  unfold bind, FLAGS_getitem.
  destruct (FLAGS !! _flags self) as [native|] eqn:Hf; simpl; [|constructor].
  by apply change_push.
Qed.

Lemma registration_change self (b : bool) path g :
  (b = true -> _recursive self = true) ->
  Change self
    (object_after self
       ((if b then __add_submonitor self path else ret self) g).1).
Proof.
  destruct b; intros Hb; [|constructor]. by apply add_submonitor_change, Hb.
Qed.

Lemma on_change_change self isdir file ev g :
  Change self (object_after self (__on_change self isdir file ev g).1).
Proof.
  on_change_cases self file ev Hcb Hev Hout; try constructor.
  all: apply registration_change; by intros [? _]%andb_prop.
Qed.

Lemma step_change self s g :
  Change self (object_after self (step self s g).1).
Proof.
  destruct s as [w isdir file ev| |v|h]; simpl; try constructor.
  unfold deliver. destruct (watch_of self w) as [m|]; [|constructor].
  apply on_change_change.
Qed.

Lemma add_submonitor_file_monitors self path g :
  file_monitors (__add_submonitor self path g).2 = file_monitors g.
Proof.
  unfold __add_submonitor. case_decide; [done|].
  unfold bind, FLAGS_getitem. by destruct (FLAGS !! _flags self).
Qed.

Lemma on_change_file_monitors self isdir file ev g :
  file_monitors (__on_change self isdir file ev g).2 = file_monitors g.
Proof.
  on_change_cases self file ev Hcb Hev Hout; try done.
  all: destruct (_recursive self && isdir file); [|done].
  all: by rewrite add_submonitor_file_monitors.
Qed.

Lemma step_file_monitors self s g :
  file_monitors (step self s g).2 = file_monitors g.
Proof.
  destruct s as [w isdir file ev| |v|h]; simpl; try done.
  unfold deliver. destruct (watch_of self w) as [m|]; [|done].
  apply on_change_file_monitors.
Qed.

Lemma main_loop_invariant (I : FileMonitor -> Globals -> Prop) ss self g :
  (forall self s g,
     I self g -> I (object_after self (step self s g).1) (step self s g).2) ->
  I self g -> I (main_loop ss self g).1 (main_loop ss self g).2.
Proof.
  intros Hstep. revert self g.
  induction ss as [|s ss IH]; intros self g HI; simpl; [done|].
  specialize (Hstep self s g HI).
  destruct (step self s g) as [[self'|e] g']; simpl in *; by apply IH.
Qed.

Lemma main_loop_preserves (P : FileMonitor -> Prop) ss self g :
  (forall a b, Change a b -> P a -> P b) ->
  P self -> P (main_loop ss self g).1.
Proof.
  intros Hclosed HP.
  apply (main_loop_invariant (fun self _ => P self)); [|done].
  intros a s g' Ha. by apply (Hclosed a), Ha; [apply step_change].
Qed.

Lemma register_all_preserves (P : FileMonitor -> Prop) paths self g self' g' :
  (forall a b, Change a b -> P a -> P b) ->
  _recursive self = true -> P self ->
  register_all paths self g = (Normal self', g') -> P self'.
Proof.
  intros Hclosed. unfold register_all. revert self g.
  induction paths as [|p ps IH]; intros self g Hrec HP; simpl.
  - by intros [= <- _].
  - unfold bind. pose proof (add_submonitor_change self p g Hrec) as Hch.
    destruct (__add_submonitor self p g) as [[s1|e] g1]; [|done].
    simpl in Hch. apply IH.
    + destruct (Change_fields _ _ Hch) as (_ & _ & _ & ->). done.
    + by apply (Hclosed self).
Qed.

Lemma register_all_file_monitors paths self g :
  file_monitors (register_all paths self g).2 = file_monitors g.
Proof.
  unfold register_all. revert self g.
  induction paths as [|p ps IH]; intros self g; simpl; [done|].
  unfold bind. pose proof (add_submonitor_file_monitors self p g) as Hfm.
  destruct (__add_submonitor self p g) as [[s1|e] g1]; simpl in *; [|done].
  by rewrite IH.
Qed.

(** The constructor, with a known flag: it returns, the object comes from the
    blank one by registrations only, and [file_monitors] gained its
    identity. *)
Lemma init_shape (P : FileMonitor -> Prop) id path recursive flags native
    callback tree g :
  FLAGS !! flags = Some native ->
  (forall a b, Change a b -> P a -> P b) ->
  P (fresh_monitor id path recursive flags native callback) ->
  exists self g',
    __init__ id path recursive flags callback tree g = (Normal self, g') /\
    P self /\ file_monitors g' = file_monitors g ++ [ident self].
Proof.
  intros Hf Hclosed HP. unfold __init__, bind, FLAGS_getitem. rewrite Hf. simpl.
  destruct recursive.
  - rewrite init_loop_register_all.
    pose proof (register_all_file_monitors (walk_paths path tree)
                  (fresh_monitor id path true flags native callback)
                  (mkGlobals (file_monitors g)
                     (journal g ++ [MonitorOpened path native]))) as Hfm.
    destruct (register_all_total (walk_paths path tree)
                (fresh_monitor id path true flags native callback) native
                (mkGlobals (file_monitors g)
                   (journal g ++ [MonitorOpened path native])) Hf)
      as (s' & g' & Hreg).
    unfold fresh_monitor in *. rewrite Hreg in *. simpl in *.
    eexists _, _. split; [reflexivity|]. split; [|by rewrite Hfm].
    eapply (register_all_preserves P); [done| |exact HP|exact Hreg]. done.
  - eexists _, _. split; [reflexivity|]. by split.
Qed.

(** Whatever survives [Change] and holds of the blank object holds after
    construction and after any run of stimuli. *)
Lemma reachable_preserves (P : FileMonitor -> Prop) id path recursive flags
    native callback tree g :
  FLAGS !! flags = Some native ->
  (forall a b, Change a b -> P a -> P b) ->
  P (fresh_monitor id path recursive flags native callback) ->
  exists m g1,
    __init__ id path recursive flags callback tree g = (Normal m, g1) /\
    forall ss, P (main_loop ss m g1).1.
Proof.
  intros Hf Hclosed HP.
  destruct (init_shape P id path recursive flags native callback tree g
              Hf Hclosed HP) as (m & g1 & Hinit & Hm & _).
  exists m, g1. split; [done|]. intros ss. by apply main_loop_preserves.
Qed.

(** ** Invariants of a monitor over its whole life *)

Lemma aligned_closed a b :
  Change a b ->
  gio_path <$> _sub_monitors a = _sub_paths a /\ NoDup (_sub_paths a) ->
  gio_path <$> _sub_monitors b = _sub_paths b /\ NoDup (_sub_paths b).
Proof.
  intros [| |v|h|p native Hp Hrec Hf] [Hal Hnd]; simpl; try done.
  split.
  - by rewrite fmap_app, Hal.
  - apply NoDup_app. split; [done|]. split; [|apply NoDup_singleton].
    by intros x Hx ->%list_elem_of_singleton.
Qed.

(** X1: from construction on and whatever happens to the monitor (events
    from any watch, [cancel()], callback changes, new subscribers),
    [_sub_monitors] and [_sub_paths] stay in step, the i-th monitor watching
    the i-th path, and no path is listed twice.  This holds for any tree,
    well-formed or not. *)
Theorem watch_lists_aligned id path recursive flags native callback tree g :
  FLAGS !! flags = Some native ->
  exists m g1,
    __init__ id path recursive flags callback tree g = (Normal m, g1) /\
    forall ss,
      gio_path <$> _sub_monitors (main_loop ss m g1).1
        = _sub_paths (main_loop ss m g1).1 /\
      NoDup (_sub_paths (main_loop ss m g1).1).
Proof.
  intros Hf.
  apply (reachable_preserves
           (fun s => gio_path <$> _sub_monitors s = _sub_paths s /\
                     NoDup (_sub_paths s))
           id path recursive flags native callback tree g Hf);
    [apply aligned_closed|].
  split; [done|constructor].
Qed.

Lemma watch_lists_aligned_witness :
  FLAGS !! Some "watch_moves" = Some WATCH_MOVES /\
  exists m g1,
    __init__ 0 "D" true (Some "watch_moves") (Some cb_ok) tree1 g0
      = (Normal m, g1) /\
    forall ss,
      gio_path <$> _sub_monitors (main_loop ss m g1).1
        = _sub_paths (main_loop ss m g1).1 /\
      NoDup (_sub_paths (main_loop ss m g1).1).
Proof.
  split; [reflexivity|].
  apply (watch_lists_aligned 0 "D" true (Some "watch_moves") WATCH_MOVES
           (Some cb_ok) tree1 g0).
  reflexivity.
Defined.

Lemma uniform_flags_closed a b :
  Change a b ->
  Forall (fun w => FLAGS !! _flags a = Some (gio_flags w)) (watches a) ->
  Forall (fun w => FLAGS !! _flags b = Some (gio_flags w)) (watches b).
Proof.
  unfold watches.
  intros [| |v|h|p native Hp Hrec Hf] [Hroot Hsub]%Forall_cons; simpl;
    try (by apply Forall_cons).
  apply Forall_cons. split; [done|]. apply Forall_app. split; [done|].
  by apply Forall_singleton.
Qed.

(** X2: every watch of a monitor, the root and each subdirectory watch
    whenever it was opened, carries the native flag [FLAGS] gives for the
    literal the monitor was built with. *)
Theorem watches_share_native_flag id path recursive flags native callback tree g :
  FLAGS !! flags = Some native ->
  exists m g1,
    __init__ id path recursive flags callback tree g = (Normal m, g1) /\
    forall ss,
      Forall (fun w => gio_flags w = native) (watches (main_loop ss m g1).1).
Proof.
  intros Hf.
  destruct (reachable_preserves
              (fun s => _flags s = flags /\
                 Forall (fun w => FLAGS !! _flags s = Some (gio_flags w))
                   (watches s))
              id path recursive flags native callback tree g Hf)
    as (m & g1 & Hinit & Hall).
  - intros a b Hch [Hfl Hw]. split.
    + destruct (Change_fields a b Hch) as (_ & _ & -> & _). done.
    + by apply (uniform_flags_closed a b).
  - split; [done|]. unfold watches. simpl. by repeat constructor.
  - exists m, g1. split; [done|]. intros ss.
    destruct (Hall ss) as [Hfl Hw]. eapply Forall_impl; [exact Hw|].
    intros w. simpl. rewrite Hfl, Hf. by intros [= ->].
Qed.

Lemma watches_share_native_flag_witness :
  FLAGS !! Some "send_moved" = Some SEND_MOVED /\
  exists m g1,
    __init__ 0 "D" true (Some "send_moved") None tree1 g0 = (Normal m, g1) /\
    forall ss,
      Forall (fun w => gio_flags w = SEND_MOVED) (watches (main_loop ss m g1).1).
Proof.
  split; [reflexivity|].
  apply (watches_share_native_flag 0 "D" true (Some "send_moved") SEND_MOVED
           None tree1 g0).
  reflexivity.
Defined.

(** X3: [path], [flags] and [recursive] are read-only: from construction on
    and whatever happens to the monitor, the accessors return what the
    constructor was given. *)
Theorem read_only_properties id path recursive flags native callback tree g :
  FLAGS !! flags = Some native ->
  exists m g1,
    __init__ id path recursive flags callback tree g = (Normal m, g1) /\
    forall ss,
      props.path (main_loop ss m g1).1 = path /\
      props.flags (main_loop ss m g1).1 = flags /\
      props.recursive (main_loop ss m g1).1 = recursive.
Proof.
  intros Hf.
  apply (reachable_preserves
           (fun s => props.path s = path /\ props.flags s = flags /\
                     props.recursive s = recursive)
           id path recursive flags native callback tree g Hf); [|done].
  unfold props.path, props.flags, props.recursive.
  intros a b (_ & -> & -> & ->)%Change_fields. done.
Qed.

Lemma read_only_properties_witness :
  FLAGS !! Some "none" = Some NONE /\
  exists m g1,
    __init__ 0 "D" true (Some "none") None tree1 g0 = (Normal m, g1) /\
    forall ss,
      props.path (main_loop ss m g1).1 = "D" /\
      props.flags (main_loop ss m g1).1 = Some "none" /\
      props.recursive (main_loop ss m g1).1 = true.
Proof.
  split; [reflexivity|].
  apply (read_only_properties 0 "D" true (Some "none") NONE None tree1 g0).
  reflexivity.
Defined.

(** ** The [callback] property *)

Lemma add_submonitor_object self path g :
  object_after self (__add_submonitor self path g).1 = self \/
  exists native,
    object_after self (__add_submonitor self path g).1
    = push_submonitor (mkGio path native false) path self.
Proof.
  unfold __add_submonitor. case_decide; [by left|].
  unfold bind, FLAGS_getitem.
  destruct (FLAGS !! _flags self) as [native|]; [|by left].
  right. by exists native.
Qed.

Lemma add_submonitor_callback self path g :
  _callback (object_after self (__add_submonitor self path g).1)
  = _callback self.
Proof. by destruct (add_submonitor_object self path g) as [->|[n ->]]. Qed.

Lemma on_change_callback self isdir file ev g :
  _callback (object_after self (__on_change self isdir file ev g).1)
  = _callback self.
Proof.
  on_change_cases self file ev Hcb Hev Hout; try done.
  all: destruct (_recursive self && isdir file); [|done].
  all: by rewrite add_submonitor_callback.
Qed.

Lemma step_callback self s g :
  _callback (object_after self (step self s g).1)
  = callback_after [s] (_callback self).
Proof.
  destruct s as [w isdir file ev| |v|h]; simpl; try done.
  unfold deliver. destruct (watch_of self w) as [m|]; [|done].
  apply on_change_callback.
Qed.

Lemma main_loop_callback ss self g :
  _callback (main_loop ss self g).1 = callback_after ss (_callback self).
Proof.
  revert self g. induction ss as [|s ss IH]; intros self g; simpl; [done|].
  pose proof (step_callback self s g) as Hstep.
  destruct (step self s g) as [[self'|e] g']; simpl in Hstep; rewrite IH.
  - rewrite Hstep. by destruct s.
  - destruct s as [w isdir file ev| |v|h]; simpl in *; try done.
    by rewrite Hstep.
Qed.

Lemma register_all_callback paths self g self' g' :
  register_all paths self g = (Normal self', g') ->
  _callback self' = _callback self.
Proof.
  unfold register_all. revert self g.
  induction paths as [|p ps IH]; intros self g; simpl; [by intros [= <- _]|].
  unfold bind. pose proof (add_submonitor_callback self p g) as Hcb.
  destruct (__add_submonitor self p g) as [[s1|e] g1]; [|done].
  intros Hrest. rewrite (IH _ _ Hrest). exact Hcb.
Qed.

Lemma init_callback id path recursive flags callback tree g self g' :
  __init__ id path recursive flags callback tree g = (Normal self, g') ->
  _callback self = callback.
Proof.
  unfold __init__, bind, FLAGS_getitem.
  destruct (FLAGS !! flags) as [native|]; [simpl|done].
  destruct recursive; [|by intros [= <- _]].
  rewrite init_loop_register_all.
  destruct (register_all _ _ _) as [[s1|e] g1] eqn:Hreg; [|done].
  intros [= <- _]. by apply register_all_callback in Hreg.
Qed.

(** X4: the [callback] accessor returns what the setter was last called
    with, or the constructor argument when the setter was never called;
    events, [cancel()] and new subscribers do not touch it. *)
Theorem callback_is_last_set id path recursive flags native callback tree g :
  FLAGS !! flags = Some native ->
  exists m g1,
    __init__ id path recursive flags callback tree g = (Normal m, g1) /\
    forall ss,
      props.callback (main_loop ss m g1).1 = callback_after ss callback.
Proof.
  intros Hf.
  destruct (init_total id path recursive flags callback tree native g Hf)
    as (m & g1 & Hinit).
  exists m, g1. split; [done|]. intros ss.
  unfold props.callback. rewrite main_loop_callback.
  by rewrite (init_callback _ _ _ _ _ _ _ _ _ Hinit).
Qed.

Lemma callback_is_last_set_witness :
  FLAGS !! None = Some NONE /\
  exists m g1,
    __init__ 0 "D" false None (Some cb_ok) tree1 g0 = (Normal m, g1) /\
    forall ss,
      props.callback (main_loop ss m g1).1 = callback_after ss (Some cb_ok).
Proof.
  split; [reflexivity|].
  apply (callback_is_last_set 0 "D" false None NONE (Some cb_ok) tree1 g0).
  reflexivity.
Defined.

(** ** What never shrinks *)

Lemma prefix_closed (l0 : list string) (m0 : list GioFileMonitor) a b :
  Change a b ->
  l0 `prefix_of` _sub_paths a /\ m0 `prefix_of` _sub_monitors a ->
  l0 `prefix_of` _sub_paths b /\ m0 `prefix_of` _sub_monitors b.
Proof.
  intros [| |v|h|p native Hp Hrec Hf] [Hl Hm]; simpl; try done.
  split; by apply prefix_app_r.
Qed.

(** X5: nothing ever takes a watch or a registration back.  Over any run of
    stimuli, [cancel()] included, the lists of subdirectory paths and
    monitors only grow at their end, and the module-level list
    [file_monitors] stays exactly as it is. *)
Theorem watches_and_registry_never_shrink ss self g :
  _sub_paths self `prefix_of` _sub_paths (main_loop ss self g).1 /\
  _sub_monitors self `prefix_of` _sub_monitors (main_loop ss self g).1 /\
  file_monitors (main_loop ss self g).2 = file_monitors g.
Proof.
  split; [|split].
  - apply (main_loop_preserves
             (fun s => _sub_paths self `prefix_of` _sub_paths s /\
                       _sub_monitors self `prefix_of` _sub_monitors s));
      [apply prefix_closed|done].
  - apply (main_loop_preserves
             (fun s => _sub_paths self `prefix_of` _sub_paths s /\
                       _sub_monitors self `prefix_of` _sub_monitors s));
      [apply prefix_closed|done].
  - apply (main_loop_invariant
             (fun _ g' => file_monitors g' = file_monitors g)); [|done].
    intros s st g' Hg'. by rewrite step_file_monitors.
Qed.

(** ** After [cancel()] *)

Lemma cancelled_closed a b :
  Change a b ->
  gio_cancelled (_monitor a) = true -> gio_cancelled (_monitor b) = true.
Proof. by intros []. Qed.

(** X6: [cancel()] can be called at any time and any number of times: it
    never raises, a second call leaves the object exactly as the first left
    it, and whatever follows (events, further calls of [cancel()], callback
    changes, new subscribers) the root monitor stays the cancelled one: no
    statement of the class replaces or reopens it. *)
Theorem root_cancel_is_final self g ss :
  exists self' g',
    cancel self g = (Normal self', g') /\
    (exists g'', cancel self' g' = (Normal self', g'')) /\
    gio_cancelled (_monitor (main_loop ss self' g').1) = true.
Proof.
  rewrite cancel_spec. eexists _, _. split; [reflexivity|]. split.
  - rewrite cancel_spec. by eexists.
  - by apply (main_loop_preserves
                (fun s => gio_cancelled (_monitor s) = true));
      [apply cancelled_closed|].
Qed.

Lemma journal_one_more (p : Action -> bool) g a :
  p a = false ->
  List.filter p (journal g ++ [a]) = List.filter p (journal g).
Proof. intros Hp. rewrite List.filter_app. simpl. by rewrite Hp, app_nil_r. Qed.

(** ** Monitors that are not recursive *)

Lemma on_change_nonrecursive self isdir file ev g :
  _recursive self = false ->
  object_after self (__on_change self isdir file ev g).1 = self /\
  openings (__on_change self isdir file ev g).2 = openings g.
Proof.
  intros Hrec. on_change_cases self file ev Hcb Hev Hout;
    rewrite ?Hrec; simpl; try done.
  - split; [done|]. apply openings_after_deliveries.
  - split; [done|]. unfold openings. simpl. by rewrite journal_one_more.
Qed.

Lemma step_nonrecursive self s g :
  _recursive self = false ->
  _sub_monitors (object_after self (step self s g).1) = _sub_monitors self /\
  _sub_paths (object_after self (step self s g).1) = _sub_paths self /\
  openings (step self s g).2 = openings g.
Proof.
  intros Hrec. destruct s as [w isdir file ev| |v|h]; simpl; try done.
  - unfold deliver. destruct (watch_of self w) as [m|]; [|done].
    destruct (on_change_nonrecursive self isdir file ev g Hrec) as [-> ->].
    done.
  - split; [done|]. split; [done|]. unfold openings. simpl.
    by rewrite journal_one_more.
Qed.

(** X8: a monitor built with [recursive=False] holds its root watch and
    nothing else, for ever: whatever the directory contains and whatever
    events arrive, no subdirectory path is listed and the only native
    monitor ever opened is the root's. *)
Theorem nonrecursive_single_watch id path flags native callback tree g :
  FLAGS !! flags = Some native ->
  exists m g1,
    __init__ id path false flags callback tree g = (Normal m, g1) /\
    forall ss,
      _sub_monitors (main_loop ss m g1).1 = [] /\
      _sub_paths (main_loop ss m g1).1 = [] /\
      openings (main_loop ss m g1).2
      = openings g ++ [MonitorOpened path native].
Proof.
  intros Hf. unfold __init__, bind, FLAGS_getitem. rewrite Hf. simpl.
  eexists _, _. split; [reflexivity|]. intros ss.
  match goal with
  | |- _sub_monitors (main_loop ss ?m ?g1).1 = [] /\ _ =>
      destruct (main_loop_invariant
                  (fun s g' =>
                     (_recursive s = false /\ _sub_monitors s = [] /\
                      _sub_paths s = []) /\
                     openings g' = openings g ++ [MonitorOpened path native])
                  ss m g1) as [(_ & Hm & Hp) Ho]
  end.
  - intros s st g' [(Hrec & Hm & Hp) Ho].
    destruct (step_nonrecursive s st g' Hrec) as (-> & -> & ->).
    split; [|done]. split; [|done].
    by destruct (Change_fields _ _ (step_change s st g')) as (_ & _ & _ & ->).
  - split; [done|]. unfold openings. simpl. by rewrite List.filter_app.
  - done.
Qed.

Lemma nonrecursive_single_watch_witness :
  FLAGS !! None = Some NONE /\
  exists m g1,
    __init__ 0 "D" false None (Some cb_ok) tree1 g0 = (Normal m, g1) /\
    forall ss,
      _sub_monitors (main_loop ss m g1).1 = [] /\
      _sub_paths (main_loop ss m g1).1 = [] /\
      openings (main_loop ss m g1).2
      = openings g0 ++ [MonitorOpened "D" NONE].
Proof.
  split; [reflexivity|].
  apply (nonrecursive_single_watch 0 "D" None NONE (Some cb_ok) tree1 g0).
  reflexivity.
Defined.

(** ** What one event registers *)

Lemma deliverable_cases self file ev isdir g :
  deliverable self file ev ->
  exists g',
    __on_change self isdir file ev g =
    (if _recursive self && isdir file
     then __add_submonitor self file else ret self) g' /\
    openings g' = openings g.
Proof.
  unfold deliverable. intros Hd.
  destruct (_callback self) as [cb|] eqn:Hcb.
  - destruct Hd as (kind & Hev & Hout).
    rewrite (on_change_returns self cb isdir file ev kind) by done.
    eexists. split; [reflexivity|]. apply openings_after_deliveries.
  - rewrite on_change_no_callback by done. by exists g.
Qed.

(** X9: a recursive monitor that handles an event (of any listed type) on
    a directory it does not watch yet opens exactly one native monitor, on
    that very path and with the monitor's native flag, and appends it to its
    lists. *)
Theorem new_directory_gets_one_watch self isdir path ev native g :
  _recursive self = true -> isdir path = true ->
  path ∉ _sub_paths self -> FLAGS !! _flags self = Some native ->
  deliverable self path ev ->
  (__on_change self isdir path ev g).1
    = Normal (push_submonitor (mkGio path native false) path self) /\
  openings (__on_change self isdir path ev g).2
    = openings g ++ [MonitorOpened path native].
Proof.
  intros Hrec Hdir Hout Hf Hd.
  destruct (deliverable_cases self path ev isdir g Hd) as (g' & -> & <-).
  rewrite Hrec, Hdir. simpl.
  rewrite (add_submonitor_absent self path native) by done. simpl.
  split; [done|]. unfold openings. simpl. by rewrite List.filter_app.
Qed.

Lemma new_directory_gets_one_watch_witness :
  _recursive mon_a = true /\ always_dir "D/a/b" = true /\
  ("D/a/b" ∉ _sub_paths mon_a) /\ FLAGS !! _flags mon_a = Some NONE /\
  deliverable mon_a "D/a/b" CREATED /\
  (__on_change mon_a always_dir "D/a/b" CREATED g0).1
    = Normal (push_submonitor (mkGio "D/a/b" NONE false) "D/a/b" mon_a) /\
  openings (__on_change mon_a always_dir "D/a/b" CREATED g0).2
    = openings g0 ++ [MonitorOpened "D/a/b" NONE].
Proof.
  assert ("D/a/b" ∉ _sub_paths mon_a) as Hout.
  { intros Hin%list_elem_of_In. simpl in Hin.
    destruct Hin as [Hin|Hin]; [discriminate Hin|exact Hin]. }
  assert (deliverable mon_a "D/a/b" CREATED) as Hd.
  { exists "created". split; [vm_compute; reflexivity|reflexivity]. }
  split; [reflexivity|]. split; [reflexivity|]. split; [exact Hout|].
  split; [reflexivity|]. split; [exact Hd|].
  apply (new_directory_gets_one_watch mon_a always_dir "D/a/b" CREATED NONE g0
           eq_refl eq_refl Hout eq_refl Hd).
Defined.

(** X10: files are not watched one by one.  An event whose path is not a
    directory when it is handled leaves the object as it is and opens no
    native monitor, recursive monitor or not, whatever the event type and
    whatever the callback does. *)
Theorem non_directory_registers_nothing self isdir path ev g :
  isdir path = false ->
  object_after self (__on_change self isdir path ev g).1 = self /\
  openings (__on_change self isdir path ev g).2 = openings g.
Proof.
  intros Hdir. on_change_cases self path ev Hcb Hev Hout;
    rewrite ?Hdir, ?andb_false_r; simpl; try done.
  - split; [done|]. apply openings_after_deliveries.
  - split; [done|]. unfold openings. simpl. by rewrite journal_one_more.
Qed.

Lemma non_directory_registers_nothing_witness :
  never_dir "D/a/file.txt" = false /\
  object_after mon_a
    (__on_change mon_a never_dir "D/a/file.txt" CREATED g0).1 = mon_a /\
  openings (__on_change mon_a never_dir "D/a/file.txt" CREATED g0).2
    = openings g0.
Proof.
  split; [reflexivity|].
  apply (non_directory_registers_nothing mon_a never_dir "D/a/file.txt"
           CREATED g0).
  reflexivity.
Defined.

Lemma add_submonitor_result_indep self path g1 g2 :
  (__add_submonitor self path g1).1 = (__add_submonitor self path g2).1.
Proof.
  unfold __add_submonitor. case_decide; [done|].
  unfold bind, FLAGS_getitem. by destruct (FLAGS !! _flags self).
Qed.

(** X11: the registration step does not look at the event type.  Two events
    on the same path that both get past the callback block end in the same
    completion and the same object, whatever their types: a [DELETED] or
    [CHANGED] event on a path that is a directory registers it just as a
    [CREATED] one does. *)
Theorem registration_ignores_event_type self isdir path ev1 ev2 g1 g2 :
  deliverable self path ev1 -> deliverable self path ev2 ->
  (__on_change self isdir path ev1 g1).1
  = (__on_change self isdir path ev2 g2).1.
Proof.
  intros Hd1 Hd2.
  destruct (deliverable_cases self path ev1 isdir g1 Hd1) as (g1' & -> & _).
  destruct (deliverable_cases self path ev2 isdir g2 Hd2) as (g2' & -> & _).
  destruct (_recursive self && isdir path); [|done].
  apply add_submonitor_result_indep.
Qed.

Lemma registration_ignores_event_type_witness :
  deliverable (mon None true) "D/a" CREATED /\
  deliverable (mon None true) "D/a" DELETED /\
  (__on_change (mon None true) always_dir "D/a" CREATED g0).1
  = (__on_change (mon None true) always_dir "D/a" DELETED g0).1.
Proof.
  split; [exact I|]. split; [exact I|].
  apply (registration_ignores_event_type (mon None true) always_dir "D/a"
           CREATED DELETED g0 g0 I I).
Defined.

(** ** The two dictionaries *)

Lemma FLAGS_known (flags : option string) :
  flags ∈ [None; Some "none"; Some "watch_mounts"; Some "send_moved";
           Some "watch_hard_links"; Some "watch_moves"] ->
  exists native, FLAGS !! flags = Some native.
Proof.
  rewrite !elem_of_cons, elem_of_nil.
  intros [->|[->|[->|[->|[->|[->|[]]]]]]]; eexists; reflexivity.
Qed.

(** X12: each of the six keys of [FLAGS] is accepted.  With any of them
    the constructor returns, for any directory tree and recursive or not;
    the object has the identity, the literal and the callback it was given,
    and its identity is appended to [file_monitors]. *)
Theorem known_flag_constructs id path recursive flags callback tree g :
  flags ∈ [None; Some "none"; Some "watch_mounts"; Some "send_moved";
           Some "watch_hard_links"; Some "watch_moves"] ->
  exists self g',
    __init__ id path recursive flags callback tree g = (Normal self, g') /\
    ident self = id /\ props.flags self = flags /\
    props.callback self = callback /\
    file_monitors g' = file_monitors g ++ [id].
Proof.
  intros [native Hf]%FLAGS_known.
  destruct (init_shape (fun s => ident s = id)
              id path recursive flags native callback tree g Hf)
    as (self & g' & Hinit & Hid & Hfm); [|done|].
  { by intros a b (-> & _)%Change_fields. }
  exists self, g'. split; [done|]. split; [done|].
  split; [exact (init_keeps_flags _ _ _ _ _ _ _ _ _ Hinit)|].
  split; [exact (init_callback _ _ _ _ _ _ _ _ _ Hinit)|].
  by rewrite Hfm, Hid.
Qed.

Lemma known_flag_constructs_witness :
  (Some "watch_hard_links"
     ∈ [None; Some "none"; Some "watch_mounts"; Some "send_moved";
        Some "watch_hard_links"; Some "watch_moves"]) /\
  exists self g',
    __init__ 3 "D" true (Some "watch_hard_links") None tree1 g0
      = (Normal self, g') /\
    ident self = 3 /\ props.flags self = Some "watch_hard_links" /\
    props.callback self = None /\
    file_monitors g' = file_monitors g0 ++ [3].
Proof.
  assert (Some "watch_hard_links"
            ∈ [None; Some "none"; Some "watch_mounts"; Some "send_moved";
               Some "watch_hard_links"; Some "watch_moves"]) as Hin.
  { do 4 apply list_elem_of_further. apply list_elem_of_here. }
  split; [exact Hin|].
  apply (known_flag_constructs 3 "D" true (Some "watch_hard_links") None
           tree1 g0 Hin).
Defined.

Lemma EVENT_unlisted raw : EVENT !! UNLISTED raw = None.
Proof.
  unfold EVENT. repeat (rewrite lookup_insert_ne by discriminate).
  by apply lookup_singleton_ne.
Qed.

(** X13: [EVENT] names the eleven listed events and only them, each by a
    string of its own: the lookup fails exactly on the unlisted constants,
    and two events with the same event-type string are the same event. *)
Theorem EVENT_names_are_distinct :
  (forall e, EVENT !! e = None <-> exists raw, e = UNLISTED raw) /\
  (forall a b kind,
     EVENT !! a = Some kind -> EVENT !! b = Some kind -> a = b).
Proof.
  split.
  - intros e. split.
    + destruct e as [| | | | | | | | | | |raw]; try (vm_compute; discriminate).
      intros _. by exists raw.
    + intros [raw ->]. apply EVENT_unlisted.
  - intros a b kind Ha Hb.
    destruct a as [| | | | | | | | | | |ra];
      [| | | | | | | | | | |by rewrite EVENT_unlisted in Ha];
      vm_compute in Ha; injection Ha as <-;
      (destruct b as [| | | | | | | | | | |rb];
       [| | | | | | | | | | |by rewrite EVENT_unlisted in Hb]);
      vm_compute in Hb; first [reflexivity | discriminate Hb].
Qed.

Lemma callback_before_subscribers_witness :
  _callback (connect 9 (mon (Some cb_ok) false)) = Some cb_ok /\
  EVENT !! CHANGED = Some "changed" /\
  cb_ok "D/a/file.txt" "changed" = Returns /\
  deliveries
    (__on_change (connect 9 (mon (Some cb_ok) false)) never_dir
       "D/a/file.txt" CHANGED g0).2
  = deliveries g0
    ++ [CallbackCall "D/a/file.txt" "changed";
        HandlerCall 7 "D/a/file.txt" "changed";
        HandlerCall 9 "D/a/file.txt" "changed"].
Proof.
  split; [reflexivity|]. split; [vm_compute; reflexivity|].
  split; [reflexivity|].
  apply (callback_before_subscribers (connect 9 (mon (Some cb_ok) false))
           cb_ok never_dir "D/a/file.txt" CHANGED "changed" g0);
    solve [reflexivity | vm_compute; reflexivity].
Defined.

(** ** What can leave a handler *)

Lemma registration_never_raises self (b : bool) path g e :
  is_Some (FLAGS !! _flags self) ->
  ((if b then __add_submonitor self path else ret self) g).1 <> Raise e.
Proof.
  intros [native Hf]. destruct b; [|done].
  destruct (decide (path ∈ _sub_paths self)) as [Hin|Hout].
  - by rewrite add_submonitor_present.
  - by rewrite (add_submonitor_absent self path native).
Qed.

Lemma step_raises self s g e :
  is_Some (FLAGS !! _flags self) ->
  (step self s g).1 = Raise e ->
  (exists ev, e = KeyError_EVENT ev /\ EVENT !! ev = None) \/
  (exists what, e = CallbackException what).
Proof.
  intros Hf. destruct s as [w isdir file ev| |v|h]; simpl; try done.
  unfold deliver. destruct (watch_of self w) as [m|]; [|done].
  on_change_cases self file ev Hcb Hev Hout; simpl.
  - intros Hr. by apply registration_never_raises in Hr.
  - intros [= <-]. right. by eexists.
  - intros [= <-]. left. by eexists.
  - intros Hr. by apply registration_never_raises in Hr.
Qed.

(** X14: for a constructed monitor, at any point of its life, a public call
    ([cancel()], the callback setter, a new subscriber) never raises, and
    the only exceptions that leave the event handler are the [KeyError] of
    [EVENT] on an unlisted native constant and whatever the callback itself
    raised; the lookup in [FLAGS] made for each new subdirectory never
    fails. *)
Theorem handler_exceptions id path recursive flags native callback tree g :
  FLAGS !! flags = Some native ->
  exists m g1,
    __init__ id path recursive flags callback tree g = (Normal m, g1) /\
    forall ss s e,
      (step (main_loop ss m g1).1 s (main_loop ss m g1).2).1 = Raise e ->
      (exists w isdir file ev, s = Signal w isdir file ev) /\
      ((exists ev, e = KeyError_EVENT ev /\ EVENT !! ev = None) \/
       (exists what, e = CallbackException what)).
Proof.
  intros Hf.
  destruct (reachable_preserves (fun s => is_Some (FLAGS !! _flags s))
              id path recursive flags native callback tree g Hf)
    as (m & g1 & Hinit & Hall).
  - by intros a b (_ & _ & -> & _)%Change_fields.
  - simpl. by rewrite Hf.
  - exists m, g1. split; [done|]. intros ss s e Hr. split.
    + destruct s as [w isdir file ev| |v|h]; try done. by eexists _, _, _, _.
    + exact (step_raises _ s _ e (Hall ss) Hr).
Qed.

Lemma handler_exceptions_witness :
  FLAGS !! None = Some NONE /\
  exists m g1,
    __init__ 0 "D" true None (Some cb_boom) tree1 g0 = (Normal m, g1) /\
    forall ss s e,
      (step (main_loop ss m g1).1 s (main_loop ss m g1).2).1 = Raise e ->
      (exists w isdir file ev, s = Signal w isdir file ev) /\
      ((exists ev, e = KeyError_EVENT ev /\ EVENT !! ev = None) \/
       (exists what, e = CallbackException what)).
Proof.
  split; [reflexivity|].
  apply (handler_exceptions 0 "D" true None NONE (Some cb_boom) tree1 g0).
  reflexivity.
Defined.

(** ** What the walk of the constructor covers *)

Lemma register_all_elem native paths self g self' g' :
  FLAGS !! _flags self = Some native ->
  register_all paths self g = (Normal self', g') ->
  forall p, p ∈ _sub_paths self' <-> p ∈ _sub_paths self \/ p ∈ paths.
Proof.
  unfold register_all. revert self g.
  induction paths as [|q qs IH]; intros self g Hf; simpl.
  - intros [= <- _] p. rewrite elem_of_nil. tauto.
  - unfold bind. intros Hrun p. rewrite elem_of_cons.
    destruct (decide (q ∈ _sub_paths self)) as [Hin|Hout].
    + rewrite add_submonitor_present in Hrun by done.
      rewrite (IH _ _ Hf Hrun p). split; [tauto|].
      intros [Hp|[Hp|Hp]]; [by left|subst p; by left|by right].
    + rewrite (add_submonitor_absent self q native) in Hrun by done.
      rewrite (IH (push_submonitor (mkGio q native false) q self) _ Hf Hrun p).
      simpl.
      rewrite elem_of_app, list_elem_of_singleton. split.
      * intros [[Hp|Hp]|Hp]; [by left|by right; left|by right; right].
      * intros [Hp|[Hp|Hp]]; [by left; left|by left; right|by right].
Qed.

Lemma elem_of_walk_paths p path tree :
  p ∈ walk_paths path tree <->
  exists root dirs files d,
    (root, dirs, files) ∈ os_walk path tree /\ d ∈ dirs /\
    p = os_path_join root d.
Proof.
  unfold walk_paths. rewrite elem_of_flat_map. split.
  - intros ([[root dirs] files] & Ht & (d & -> & Hd)%list_elem_of_fmap).
    by exists root, dirs, files, d.
  - intros (root & dirs & files & d & Ht & Hd & ->).
    exists (root, dirs, files). split; [done|].
    apply list_elem_of_fmap. by exists d.
Qed.

(** X21: a recursive monitor watches what [os.walk] reported and nothing
    else: after construction a path is among the subdirectory paths exactly
    when it is [os.path.join(root, d)] for a triple of the walk and a name
    [d] of its [dirs].  This holds for every tree, whatever its names. *)
Theorem recursive_init_covers_walk id path flags native callback tree g :
  FLAGS !! flags = Some native ->
  exists m g1,
    __init__ id path true flags callback tree g = (Normal m, g1) /\
    forall p,
      p ∈ _sub_paths m <->
      exists root dirs files d,
        (root, dirs, files) ∈ os_walk path tree /\ d ∈ dirs /\
        p = os_path_join root d.
Proof.
  intros Hf.
  destruct (init_total id path true flags callback tree native g Hf)
    as (m & g1 & Hinit).
  exists m, g1. split; [done|]. intros p.
  rewrite <- elem_of_walk_paths.
  revert Hinit. unfold __init__, bind, FLAGS_getitem. rewrite Hf. simpl.
  rewrite init_loop_register_all.
  destruct (register_all _ _ _) as [[s1|e] g2] eqn:Hreg; [|done].
  intros [= <- _].
  rewrite (register_all_elem native (walk_paths path tree)
             (fresh_monitor id path true flags native callback)
             _ _ _ Hf Hreg p).
  simpl. rewrite elem_of_nil. tauto.
Qed.

Lemma recursive_init_covers_walk_witness :
  FLAGS !! None = Some NONE /\
  exists m g1,
    __init__ 0 "D" true None None tree1 g0 = (Normal m, g1) /\
    forall p,
      p ∈ _sub_paths m <->
      exists root dirs files d,
        (root, dirs, files) ∈ os_walk "D" tree1 /\ d ∈ dirs /\
        p = os_path_join root d.
Proof.
  split; [reflexivity|].
  apply (recursive_init_covers_walk 0 "D" None NONE None tree1 g0).
  reflexivity.
Defined.

(** * The Bluetooth service *)

Section BluetoothServiceFacts.
Context {GDevice BluetoothDevice : Type}.
Variable get_object_path : GDevice -> string.
Variable new_device : GDevice -> BluetoothDevice.

Local Abbreviation Service := (@BluetoothService.Service BluetoothDevice).
Local Abbreviation _devices := BluetoothService._devices.
Local Abbreviation outbox := BluetoothService.outbox.
Local Abbreviation dict_get := BluetoothService.dict_get.
Local Abbreviation dict_setitem := BluetoothService.dict_setitem.
Local Abbreviation dict_delete := BluetoothService.dict_delete.
Local Abbreviation add_device :=
  (BluetoothService.__add_device get_object_path new_device).
Local Abbreviation remove_device := BluetoothService.__remove_device.
Local Abbreviation init :=
  (BluetoothService.__init__ get_object_path new_device).
Local Abbreviation handle :=
  (BluetoothService.handle get_object_path new_device).

Lemma dict_get_None {V} k (d : list (string * V)) :
  dict_get k d = None <-> k ∉ d.*1.
Proof.
  induction d as [|[k' v'] d IH]; csimpl.
  - split; [intros _; apply not_elem_of_nil|done].
  - rewrite not_elem_of_cons. case_decide as Hk; csimpl.
    + split; [done|]. by intros [? _].
    + rewrite IH. split; [by intros ?|by intros [_ ?]].
Qed.

Lemma dict_setitem_keys {V} k (v : V) (d : list (string * V)) :
  (dict_setitem k v d).*1 = if decide (k ∈ d.*1) then d.*1 else d.*1 ++ [k].
Proof.
  induction d as [|[k' v'] d IH]; csimpl; [done|].
  destruct (decide (k' = k)) as [->|Hne]; csimpl.
  - rewrite decide_True; [done|apply list_elem_of_here].
  - rewrite IH. destruct (decide (k ∈ d.*1)) as [Hin|Hout].
    + rewrite decide_True; [done|by apply list_elem_of_further].
    + rewrite decide_False; [done|].
      by intros [?|?]%elem_of_cons.
Qed.

Lemma dict_setitem_values_fresh {V} k (v : V) (d : list (string * V)) :
  k ∉ d.*1 -> (dict_setitem k v d).*2 = d.*2 ++ [v].
Proof.
  induction d as [|[k' v'] d IH]; csimpl; [done|].
  intros [Hne Hout]%not_elem_of_cons.
  rewrite decide_False by done. csimpl. by rewrite IH.
Qed.

Lemma dict_get_setitem {V} k (v : V) (d : list (string * V)) q :
  dict_get q (dict_setitem k v d) = if decide (k = q) then Some v else dict_get q d.
Proof.
  induction d as [|[k' v'] d IH]; csimpl.
  - by destruct (decide (k = q)).
  - destruct (decide (k' = k)) as [->|Hne]; csimpl.
    + by destruct (decide (k = q)).
    + rewrite IH. destruct (decide (k' = q)) as [->|Hq]; [|done].
      by rewrite decide_False.
Qed.

Lemma dict_delete_setitem {V} k (v : V) (d : list (string * V)) :
  k ∉ d.*1 -> dict_delete k (dict_setitem k v d) = d.
Proof.
  induction d as [|[k' v'] d IH]; csimpl.
  - intros _. by rewrite decide_True.
  - intros [Hne Hout]%not_elem_of_cons.
    rewrite decide_False by done. csimpl. rewrite decide_False by done.
    by rewrite IH.
Qed.

Lemma dict_delete_keys {V} k (d : list (string * V)) :
  NoDup d.*1 -> (dict_delete k d).*1 = filter (fun q => q <> k) d.*1.
Proof.
  induction d as [|[k' v'] d IH]; csimpl; [done|].
  intros [Hk' Hnd]%NoDup_cons. rewrite filter_cons.
  destruct (decide (k' = k)) as [->|Hne].
  - rewrite decide_False by (by intros ?).
    clear IH. symmetry. induction d as [|[q w] d IHd]; csimpl in *; [done|].
    apply not_elem_of_cons in Hk' as [Hq Hk'].
    apply NoDup_cons in Hnd as [_ Hnd].
    rewrite filter_cons, decide_True by done. f_equal. by apply IHd.
  - rewrite decide_True by done. csimpl. by rewrite IH.
Qed.

Lemma dict_get_delete {V} k (d : list (string * V)) q :
  q <> k -> dict_get q (dict_delete k d) = dict_get q d.
Proof.
  intros Hq. induction d as [|[k' v'] d IH]; csimpl; [done|].
  destruct (decide (k' = k)) as [->|Hne]; csimpl.
  - by rewrite decide_False by done.
  - by rewrite IH.
Qed.

Lemma dict_delete_length {V} k (d : list (string * V)) :
  k ∈ d.*1 -> S (List.length (dict_delete k d)) = List.length d.
Proof.
  induction d as [|[k' v'] d IH]; csimpl; [by intros ?%elem_of_nil|].
  destruct (decide (k' = k)) as [->|Hne]; [done|].
  intros [?|Hin]%elem_of_cons; [done|]. csimpl. by rewrite IH.
Qed.

Lemma add_device_keys_NoDup (self : Service) g :
  NoDup (_devices self).*1 -> NoDup (_devices (add_device self g)).*1.
Proof.
  intros Hnd. csimpl. rewrite dict_setitem_keys. case_decide; [done|].
  apply NoDup_app. split; [done|]. split; [|apply NoDup_singleton].
  by intros x Hx ->%list_elem_of_singleton.
Qed.

Lemma remove_device_keys_NoDup (self : Service) p :
  NoDup (_devices self).*1 -> NoDup (_devices (remove_device self p)).*1.
Proof.
  intros Hnd. unfold BluetoothService.__remove_device.
  destruct (negb _); [done|].
  destruct (dict_get p (_devices self)); [|done]. csimpl.
  rewrite dict_delete_keys by done. by apply NoDup_filter.
Qed.

Lemma remove_device_known (self : Service) p device :
  dict_get p (_devices self) = Some device ->
  remove_device self p =
  BluetoothService.mkService (dict_delete p (_devices self))
    (outbox self ++ [BluetoothService.removed device;
                     BluetoothService.notify "connected-devices";
                     BluetoothService.notify "devices"]).
Proof.
  intros Hget. unfold BluetoothService.__remove_device.
  unfold BluetoothService.dict_contains.
  rewrite bool_decide_eq_true_2.
  - rewrite Hget. unfold BluetoothService.send. csimpl.
    by rewrite <- !app_assoc.
  - destruct (decide (p ∈ (_devices self).*1)) as [|Hout]; [done|].
    apply dict_get_None in Hout. congruence.
Qed.

(** X15: a "device-removed" signal for an object path the service does not
    hold is ignored: no [KeyError], no change of the dictionary, nothing
    emitted or notified. *)
Theorem remove_unknown_device (self : Service) object_path :
  object_path ∉ (_devices self).*1 ->
  remove_device self object_path = self.
Proof.
  intros Hout. unfold BluetoothService.__remove_device.
  unfold BluetoothService.dict_contains. by rewrite bool_decide_eq_false_2.
Qed.

(** X16: a device that is announced and then removed leaves the
    dictionary as it was before, entries and order, when its object path was
    not held. *)
Theorem add_then_remove_device (self : Service) gdevice :
  get_object_path gdevice ∉ (_devices self).*1 ->
  _devices (remove_device (add_device self gdevice) (get_object_path gdevice))
  = _devices self.
Proof.
  intros Hout.
  rewrite (remove_device_known _ _ (new_device gdevice)).
  - csimpl. by apply dict_delete_setitem.
  - csimpl. rewrite dict_get_setitem. by rewrite decide_True.
Qed.

(** X17: the service never holds an object path twice.  From construction
    on (even when the client lists one device twice) and after any run of
    "device-added" and "device-removed" signals, the keys of [_devices] are
    pairwise distinct, so [devices] has one entry per object path. *)
Theorem object_paths_unique (get_devices : list GDevice)
    (signals : list (BluetoothService.ClientSignal (GDevice:=GDevice))) :
  NoDup (_devices (foldl handle (init get_devices) signals)).*1 /\
  List.length
    (BluetoothService.devices (foldl handle (init get_devices) signals))
  = List.length (_devices (foldl handle (init get_devices) signals)).*1.
Proof.
  split; [|unfold BluetoothService.devices; by rewrite !length_fmap].
  assert (NoDup (_devices (init get_devices)).*1) as Hinit.
  { unfold BluetoothService.__init__.
    assert (NoDup (_devices (BluetoothService.mkService
                               (BluetoothDevice:=BluetoothDevice) [] [])).*1)
      as H0 by constructor.
    revert H0. generalize (BluetoothService.mkService
                             (BluetoothDevice:=BluetoothDevice) [] []).
    induction get_devices as [|g gs IH]; intros s Hs; csimpl; [done|].
    by apply IH, add_device_keys_NoDup. }
  revert Hinit. generalize (init get_devices).
  induction signals as [|sg sgs IH]; intros s Hs; csimpl; [done|].
  apply IH. destruct sg as [g|p]; csimpl.
  - by apply add_device_keys_NoDup.
  - by apply remove_device_keys_NoDup.
Qed.

(** X18: a device announced again under an object path the service
    already holds takes the place of the old one: the object paths and their
    order are unchanged, the path now leads to the new device, every other
    path keeps its device, and the old device is sent no "removed". *)
Theorem readded_device_replaces (self : Service) gdevice :
  get_object_path gdevice ∈ (_devices self).*1 ->
  (_devices (add_device self gdevice)).*1 = (_devices self).*1 /\
  dict_get (get_object_path gdevice) (_devices (add_device self gdevice))
    = Some (new_device gdevice) /\
  (forall q, q <> get_object_path gdevice ->
     dict_get q (_devices (add_device self gdevice))
     = dict_get q (_devices self)) /\
  outbox (add_device self gdevice)
    = outbox self
      ++ [BluetoothService.device_added (new_device gdevice);
          BluetoothService.connect_notify_connected (new_device gdevice);
          BluetoothService.notify "devices"].
Proof.
  intros Hin. csimpl. split; [|split; [|split]].
  - rewrite dict_setitem_keys. by rewrite decide_True.
  - rewrite dict_get_setitem. by rewrite decide_True.
  - intros q Hq. rewrite dict_get_setitem. by rewrite decide_False.
  - by rewrite <- !app_assoc.
Qed.

(** X19: when the client lists devices with pairwise distinct object
    paths, the service built over them holds exactly these devices, wrapped
    one by one and in the client's order. *)
Theorem init_devices (get_devices : list GDevice) :
  NoDup (get_object_path <$> get_devices) ->
  BluetoothService.devices (init get_devices) = new_device <$> get_devices /\
  (_devices (init get_devices)).*1 = get_object_path <$> get_devices.
Proof.
  intros Hnd. unfold BluetoothService.__init__, BluetoothService.devices.
  assert (forall (s : Service),
            NoDup ((_devices s).*1 ++ (get_object_path <$> get_devices)) ->
            (_devices (foldl add_device s get_devices)).*2
              = (_devices s).*2 ++ (new_device <$> get_devices) /\
            (_devices (foldl add_device s get_devices)).*1
              = (_devices s).*1 ++ (get_object_path <$> get_devices)) as Hgen.
  { clear Hnd. induction get_devices as [|g gs IH]; intros s Hs; csimpl.
    - by rewrite !app_nil_r.
    - csimpl in Hs. apply NoDup_app in Hs as (Hs1 & Hdisj & Hs2).
      assert (get_object_path g ∉ (_devices s).*1) as Hout.
      { intros Hin. apply (Hdisj _ Hin). apply list_elem_of_here. }
      destruct (IH (add_device s g)) as [-> ->].
      + csimpl. rewrite dict_setitem_keys, decide_False by done.
        rewrite <- app_assoc. csimpl. apply NoDup_app. split; [done|].
        split; [exact Hdisj|done].
      + csimpl. rewrite dict_setitem_keys, decide_False by done.
        rewrite dict_setitem_values_fresh by done.
        by rewrite <- !app_assoc. }
  apply (Hgen (BluetoothService.mkService [] [])). by csimpl.
Qed.

(** X20: a "device-removed" signal for an object path the service holds
    takes exactly that entry out: the path is gone, every other path keeps
    its device and its place, and the device taken out is sent "removed"
    before the two notifications. *)
Theorem remove_known_device (self : Service) object_path device :
  NoDup (_devices self).*1 ->
  dict_get object_path (_devices self) = Some device ->
  (object_path ∉ (_devices (remove_device self object_path)).*1) /\
  (_devices (remove_device self object_path)).*1
    = filter (fun q => q <> object_path) (_devices self).*1 /\
  (forall q, q <> object_path ->
     dict_get q (_devices (remove_device self object_path))
     = dict_get q (_devices self)) /\
  outbox (remove_device self object_path)
    = outbox self ++ [BluetoothService.removed device;
                      BluetoothService.notify "connected-devices";
                      BluetoothService.notify "devices"].
Proof.
  intros Hnd Hget. rewrite (remove_device_known self object_path device Hget).
  csimpl. rewrite dict_delete_keys by done. split; [|split; [done|split]].
  - by intros [Hne _]%list_elem_of_filter.
  - intros q Hq. by apply dict_get_delete.
  - done.
Qed.

End BluetoothServiceFacts.

Lemma remove_unknown_device_witness :
  ("/org/bluez/hci0/dev_B" ∉ (BluetoothService._devices bt_service).*1) /\
  BluetoothService.__remove_device bt_service "/org/bluez/hci0/dev_B"
  = bt_service.
Proof.
  assert ("/org/bluez/hci0/dev_B" ∉ (BluetoothService._devices bt_service).*1)
    as Hout.
  { intros Hin%list_elem_of_In. simpl in Hin.
    destruct Hin as [Hin|Hin]; [discriminate Hin|exact Hin]. }
  split; [exact Hout|].
  apply (remove_unknown_device bt_service "/org/bluez/hci0/dev_B" Hout).
Defined.

Lemma add_then_remove_device_witness :
  (fst bt_dev_B ∉ (BluetoothService._devices bt_service).*1) /\
  BluetoothService._devices
    (BluetoothService.__remove_device
       (BluetoothService.__add_device fst id bt_service bt_dev_B)
       (fst bt_dev_B))
  = BluetoothService._devices bt_service.
Proof.
  assert (fst bt_dev_B ∉ (BluetoothService._devices bt_service).*1) as Hout.
  { intros Hin%list_elem_of_In. simpl in Hin.
    destruct Hin as [Hin|Hin]; [discriminate Hin|exact Hin]. }
  split; [exact Hout|].
  apply (add_then_remove_device fst id bt_service bt_dev_B Hout).
Defined.

Lemma readded_device_replaces_witness :
  fst bt_dev_A2 ∈ (BluetoothService._devices bt_service).*1 /\
  BluetoothService.dict_get (fst bt_dev_A2)
    (BluetoothService._devices
       (BluetoothService.__add_device fst id bt_service bt_dev_A2))
  = Some bt_dev_A2.
Proof.
  assert (fst bt_dev_A2 ∈ (BluetoothService._devices bt_service).*1) as Hin
    by apply list_elem_of_here.
  split; [exact Hin|].
  apply (readded_device_replaces fst id bt_service bt_dev_A2 Hin).
Defined.

Lemma init_devices_witness :
  NoDup (fst <$> [bt_dev_A2; bt_dev_B]) /\
  BluetoothService.devices
    (BluetoothService.__init__ fst id [bt_dev_A2; bt_dev_B])
  = id <$> [bt_dev_A2; bt_dev_B].
Proof.
  assert (NoDup (fst <$> [bt_dev_A2; bt_dev_B])) as Hnd.
  { apply NoDup_cons. split; [|apply NoDup_singleton].
    intros Hin%list_elem_of_singleton. discriminate Hin. }
  split; [exact Hnd|].
  apply (init_devices fst id [bt_dev_A2; bt_dev_B] Hnd).
Defined.

Lemma remove_known_device_witness :
  NoDup (BluetoothService._devices bt_service).*1 /\
  BluetoothService.dict_get "/org/bluez/hci0/dev_A"
    (BluetoothService._devices bt_service)
  = Some ("/org/bluez/hci0/dev_A", "AA") /\
  BluetoothService.outbox
    (BluetoothService.__remove_device bt_service "/org/bluez/hci0/dev_A")
  = [BluetoothService.removed ("/org/bluez/hci0/dev_A", "AA");
     BluetoothService.notify "connected-devices";
     BluetoothService.notify "devices"].
Proof.
  assert (NoDup (BluetoothService._devices bt_service).*1) as Hnd
    by apply NoDup_singleton.
  split; [exact Hnd|]. split; [reflexivity|].
  apply (remove_known_device bt_service "/org/bluez/hci0/dev_A"
           ("/org/bluez/hci0/dev_A", "AA") Hnd eq_refl).
Defined.
